(** * Appointment controller: a shallow embedding and its properties

    Source: [src/controllers/appointmentController.js] (the Express
    controller of the appointment resource) and [src/server.js].

    The model has three layers:
    - [Js]: the JavaScript values and coercions the controller relies on
      (JSON payloads, thrown errors, numbers and strings of the query
      string, [Date.now().toString()], [crypto.randomUUID()]);
    - [Crud]: the synchronous handlers, written in a small state and
      exception monad over the data store and the response object;
    - [Loop]: the two asynchronous patterns (bulk update job, single
      resource operation), as an event loop whose suspended tasks are the
      [await] points of the source.
    The ORM is a parameter ([Orm]); [Toy] is a small instance of it on
    which the properties are exercised. *)

From Stdlib Require Import ZArith NArith List String Ascii Decimal DecimalString DecimalPos DecimalN Lia.
From stdpp Require Import base option list strings gmap fin_maps.
Import ListNotations.

Set Warnings "-register-all".
Local Open Scope string_scope.
Local Open Scope list_scope.

(** ** JavaScript values *)

Module Js.

(** A parsed JSON value: what [express.json()] stores in [req.body].
    Object fields are kept in parse order, one entry per key.

    A [string] stands for a JavaScript string whose code units are all
    below 256, one [ascii] per code unit; strings with other characters
    are outside the model. *)
Inductive Json :=
| JNull
| JBool (b : bool)
| JNum (z : Z)
| JStr (s : string)
| JArr (items : list Json)
| JObj (fields : list (string * Json)).

(** A thrown error object: [err.name], [err.message] and, for the ORM's
    validation errors, the [err.errors] array of (path, message) items. *)
Record JsError := mkError {
  err_name : string;
  err_message : string;
  err_errors : list (string * string)
}.

(** Runtime errors of the language itself.  The messages are worded as
    V8 words them; only the one of [getAppointmentById] appears in a
    property. *)
Definition TypeError (msg : string) : JsError := mkError "TypeError" msg [].
Definition ReferenceError (msg : string) : JsError := mkError "ReferenceError" msg [].

(** [v.key] on a value that is neither null nor undefined: own data
    properties exist on objects only; [None] is [undefined]. *)
Fixpoint assoc (key : string) (fields : list (string * Json)) : option Json :=
  match fields with
  | [] => None
  | (k, v) :: rest => if String.eqb k key then Some v else assoc key rest
  end.

Definition get_prop (key : string) (v : Json) : JsError + option Json :=
  match v with
  | JNull => inl (TypeError ("Cannot read properties of null (reading '" +:+ key +:+ "')"))
  | JObj fields => inr (assoc key fields)
  | _ => inr None
  end.

(** [for (const x of v)]: arrays yield their items, strings their
    characters, everything else (and undefined) is not iterable.  With
    every code unit below 256 a character is one code unit, hence one
    [ascii]. *)
Fixpoint chars (s : string) : list Json :=
  match s with
  | EmptyString => []
  | String c rest => JStr (String c EmptyString) :: chars rest
  end.

Definition iterate (what : string) (v : option Json) : JsError + list Json :=
  match v with
  | Some (JArr items) => inr items
  | Some (JStr s) => inr (chars s)
  | _ => inl (TypeError (what +:+ " is not iterable"))
  end.

(** *** Numbers

    A JavaScript number is modelled by its exact value when it is an
    integer, which is what a double holds for the magnitudes below 2^53
    that pages, limits and row counts take, together with the two
    non-finite results that the arithmetic of the controller can produce
    on them ([x / 0] and [0 / 0], [parseInt] of a string without
    digits). *)
Inductive Num :=
| NaN
| Infinity
| Int (z : Z).

(** The safe integers, [Number.isSafeInteger]: a double holds them
    exactly, so does their sum or difference with 1, and they print digit
    by digit.  Beyond them a double rounds (from 2^53), prints with an
    exponent (from 10^21) and a string of digits reads as [Infinity] (from
    2^1024 - 2^970), none of which the exact integers below follow:
    statements about a computed value are made for safe numbers. *)
Definition safe (z : Z) : Prop := (Z.abs z < 2 ^ 53)%Z.

(** Number to string, as in a template literal; the digits of [z], which
    is what JavaScript prints for a safe [z]. *)
Definition show_Z (z : Z) : string := NilZero.string_of_int (Z.to_int z).
Definition show_N (n : N) : string := NilZero.string_of_uint (N.to_uint n).

Definition show (x : Num) : string :=
  match x with
  | NaN => "NaN"
  | Infinity => "Infinity"
  | Int z => show_Z z
  end.

(** The values whose numbers are all safe. *)
Fixpoint exact (v : Json) : bool :=
  match v with
  | JNum z => (Z.abs z <? 2 ^ 53)%Z
  | JArr items => forallb exact items
  | _ => true
  end.

(** [`${v}`] for a JSON value or [undefined]; the text JavaScript
    produces when [v] is [exact]. *)
Fixpoint to_str (v : Json) : string :=
  match v with
  | JNull => "null"
  | JBool true => "true"
  | JBool false => "false"
  | JNum z => show_Z z
  | JStr s => s
  | JArr items =>
      String.concat ","
        (List.map (fun x => match x with JNull => EmptyString | _ => to_str x end) items)
  | JObj _ => "[object Object]"
  end.

Definition template (v : option Json) : string :=
  match v with
  | None => "undefined"
  | Some x => to_str x
  end.

(** A query-string parameter is either missing (the destructuring
    default, a number, applies) or a string of decimal digits. *)
Inductive Param :=
| PNum (z : Z)
| PStr (digits : uint).

Definition text (digits : uint) : string := NilEmpty.string_of_uint digits.

(** [Number(p)], the coercion applied by [-], [/], [<] and [>]: the empty
    string is 0, leading zeros are allowed.  This is the exact value of
    the digits, which is the double that JavaScript reads when it is
    [safe]. *)
Definition to_number (p : Param) : Z :=
  match p with
  | PNum z => z
  | PStr digits => Z.of_N (N.of_uint digits)
  end.

(** [parseInt(p)]: no digits, no number. *)
Definition parseInt (p : Param) : Num :=
  match p with
  | PNum z => Int z
  | PStr Nil => NaN
  | PStr digits => Int (Z.of_N (N.of_uint digits))
  end.

(** [`${p}`] *)
Definition show_param (p : Param) : string :=
  match p with
  | PNum z => show_Z z
  | PStr digits => text digits
  end.

(** [`${p - 1}`]: subtraction coerces both sides to numbers.  The
    difference is taken on the exact values, which is the difference of
    the doubles for a [safe] page. *)
Definition minus_one (p : Param) : string := show_Z (to_number p - 1).

(** [`${p + 1}`]: [+] adds numbers but concatenates as soon as one side
    is a string. *)
Definition plus_one (p : Param) : string :=
  match p with
  | PNum z => show_Z (z + 1)
  | PStr digits => text digits +:+ "1"
  end.

(** The digits of [p + 1] for a string [p]: the digit 1 appended. *)
Fixpoint append_one (digits : uint) : uint :=
  match digits with
  | Nil => D1 Nil
  | D0 d => D0 (append_one d)
  | D1 d => D1 (append_one d)
  | D2 d => D2 (append_one d)
  | D3 d => D3 (append_one d)
  | D4 d => D4 (append_one d)
  | D5 d => D5 (append_one d)
  | D6 d => D6 (append_one d)
  | D7 d => D7 (append_one d)
  | D8 d => D8 (append_one d)
  | D9 d => D9 (append_one d)
  end.

Definition num_sub (x y : Num) : Num :=
  match x, y with
  | Int a, Int b => Int (a - b)
  | _, _ => NaN
  end.

Definition num_mul (x y : Num) : Num :=
  match x, y with
  | Int a, Int b => Int (a * b)
  | _, _ => NaN
  end.

(** [Math.ceil(count / limit)] for a row count and a limit parameter:
    the ceiling of the exact quotient, which is the ceiling of the
    rounded quotient of the doubles when count and limit are [safe]. *)
Definition ceil_div (count : N) (limit : Param) : Num :=
  let c := Z.of_N count in
  let l := to_number limit in
  if Z.eqb l 0 then (if Z.eqb c 0 then NaN else Infinity)
  else Int (- ((- c) / l)).

(** [x > n] and [p < x]: a comparison with NaN is false.  A parameter
    is compared by its exact value, which is finite: this is the
    comparison of the doubles for a [safe] parameter (a string of digits
    from 2^1024 - 2^970 on reads as [Infinity], which is not below
    [Infinity]). *)
Definition num_gt (x : Num) (n : Z) : bool :=
  match x with
  | NaN => false
  | Infinity => true
  | Int z => Z.ltb n z
  end.

Definition param_gt (p : Param) (n : Z) : bool := Z.ltb n (to_number p).

Definition param_lt (p : Param) (x : Num) : bool :=
  match x with
  | NaN => false
  | Infinity => true
  | Int z => Z.ltb (to_number p) z
  end.

(** *** Identifiers *)

(** [Date.now().toString()] for a clock reading in milliseconds. *)
Definition timestamp_id (now : N) : string := show_N now.

(** [crypto.randomUUID()]: an RFC 4122 version 4 identifier printed from
    sixteen random bytes, here the sixteen low bytes of [entropy]. *)
Definition hex_digit (n : N) : ascii :=
  nth (N.to_nat n)
      ["0"; "1"; "2"; "3"; "4"; "5"; "6"; "7"; "8"; "9"; "a"; "b"; "c"; "d"; "e"; "f"]%char
      "0"%char.

Local Open Scope N_scope.

Definition hex_byte (b : N) (rest : string) : string :=
  String (hex_digit (N.div b 16)) (String (hex_digit (N.modulo b 16)) rest).

Definition random_byte (entropy : N) (i : N) : N :=
  N.land (N.shiftr entropy (8 * i)) 255.

Definition uuid_byte (entropy : N) (i : N) : N :=
  let b := random_byte entropy i in
  if N.eqb i 6 then N.lor (N.land b 15) 64
  else if N.eqb i 8 then N.lor (N.land b 63) 128
  else b.

Definition randomUUID (entropy : N) : string :=
  let b := uuid_byte entropy in
  hex_byte (b 0) (hex_byte (b 1) (hex_byte (b 2) (hex_byte (b 3) (String "-"
  (hex_byte (b 4) (hex_byte (b 5) (String "-"
  (hex_byte (b 6) (hex_byte (b 7) (String "-"
  (hex_byte (b 8) (hex_byte (b 9) (String "-"
  (hex_byte (b 10) (hex_byte (b 11) (hex_byte (b 12) (hex_byte (b 13)
  (hex_byte (b 14) (hex_byte (b 15) EmptyString))))))))))))))))))).

Local Close Scope N_scope.

End Js.

Import Js.

(** ** The data store

    [models/appointment] and the ORM behind it are not part of the
    controller: every model call the controller makes is a parameter.  A
    call may change the store and may raise; an instance is the mutable
    object that [findByPk] and [create] hand out. *)

Record Query := mkQuery {
  where_startTime_gte : option string;
  where_endTime_lte : option string;
  query_limit : Num;
  query_offset : Num;
  query_order : string * string
}.

Class Orm := {
  DB : Type;
  Instance : Type;
  (** [instance.<name>] *)
  attr : string -> Instance -> option Json;
  (** [Appointment.findAndCountAll({ where, limit, offset, order })] *)
  findAndCountAll : Query -> DB -> JsError + (N * list Instance);
  (** [Appointment.findByPk(id)] *)
  findByPk : string -> DB -> JsError + option Instance;
  (** [Appointment.findAll({ where: { <column>: value } })] *)
  findAll : string -> string -> DB -> JsError + list Instance;
  (** [Appointment.create(values)] *)
  create : Json -> DB -> DB * (JsError + Instance);
  (** [instance.update(values)]: the instance is assigned the values and
      saved; it keeps what it was assigned when the save raises. *)
  instance_update : Instance -> Json -> DB -> DB * Instance * option JsError;
  (** [instance.destroy()] *)
  instance_destroy : Instance -> DB -> DB * option JsError;
  (** [Appointment.destroy({ where: { <column>: value } })], the number
      of rows deleted *)
  destroy : string -> string -> DB -> DB * (JsError + N);
  (** [Appointment.update(values, { where: { id } })] *)
  update : Json -> option Json -> DB -> DB * option JsError
}.

(** ** Requests and responses *)

Record Request := mkRequest {
  (** [req.protocol] and [req.get('host')]: they are read from the
      connection and from the headers of the request, which the HTTP
      parser delivers without control characters *)
  protocol : string;
  host : string;
  (** [req.params.id], [req.params.userId], [req.params.scheduleId] *)
  param_id : string;
  param_userId : string;
  param_scheduleId : string;
  (** [req.query] *)
  query_page : option uint;
  query_limit_param : option uint;
  query_sortBy : option string;
  query_orderBy : option string;
  query_startDate : option string;
  query_endDate : option string;
  (** [req.body] *)
  body : Json
}.

Definition Links := list (string * string).

(** The HAL-style [_links] of a single appointment: relation, href, method. *)
Definition ActionLinks := list (string * (string * string)).

Section Responses.
Context `{Orm}.

(** The JSON documents the controller sends. *)
Inductive Body :=
| ErrorBody (error : string)
| MessageBody (message : string)
| InstanceBody (appointment : Instance) (links : option ActionLinks)
| InstancesBody (appointments : list Instance)
| PageBody (data : list Instance) (total : N) (page limit : Param)
           (totalPages : Num) (links : Links)
| AcceptedBody (message statusUrl : string) (operationId : option string)
| FailureBody (status code message : string) (details : option (list (string * string))).

(** The response object [res]: [statusCode] and the headers are set
    first, the body is sent last. *)
Record Res := mkRes {
  statusCode : Z;
  headers : list (string * string);
  sent : option Body
}.

Definition fresh_res : Res := mkRes 200 [] None.

End Responses.

(** ** The synchronous handlers *)

Module Crud.
Section Handlers.
Context `{Orm}.

(** What a handler can touch: the store and its response object. *)
Record St := mkSt {
  store : DB;
  res : Res
}.

(** A computation either returns or throws, and threads the state. *)
Definition M (A : Type) : Type := St -> St * (JsError + A).

#[local] Instance M_ret : MRet M := fun A a s => (s, inr a).

#[local] Instance M_bind : MBind M := fun A B k m s =>
  match m s with
  | (s', inl e) => (s', inl e)
  | (s', inr a) => k a s'
  end.

Definition throw {A} (e : JsError) : M A := fun s => (s, inl e).

(** [try { m } catch (err) { h err }] *)
Definition try_catch (m : M unit) (h : JsError -> M unit) : M unit := fun s =>
  match m s with
  | (s', inl e) => h e s'
  | r => r
  end.

(** [await] of a model call that only reads, and of one that writes. *)
Definition reading {A} (call : DB -> JsError + A) : M A := fun s => (s, call (store s)).

Definition writing {A} (call : DB -> DB * (JsError + A)) : M A := fun s =>
  let '(db, r) := call (store s) in (mkSt db (res s), r).

Definition saving (appointment : Instance) (values : Json) : M Instance :=
  writing (fun db =>
    let '(db', appointment', r) := instance_update appointment values db in
    (db', match r with Some e => inl e | None => inr appointment' end)).

Definition destroying (appointment : Instance) : M unit :=
  writing (fun db =>
    let '(db', r) := instance_destroy appointment db in
    (db', match r with Some e => inl e | None => inr tt end)).

(** [res.status(code)], [res.setHeader(name, value)], [res.json(body)] *)
Definition set_header (name value : string) (hs : list (string * string)) :=
  (name, value) :: List.filter (fun h => negb (String.eqb (fst h) name)) hs.

Definition on_res (f : Res -> Res) : M unit := fun s => (mkSt (store s) (f (res s)), inr tt).

Definition status (code : Z) : M unit :=
  on_res (fun r => mkRes code (headers r) (sent r)).

Definition quote : string := String (ascii_of_nat 34) EmptyString.

(** [res.setHeader] checks the value before it stores it: a tab and the
    code units from 32 on, 127 apart, are accepted, any other makes it
    throw [ERR_INVALID_CHAR], a [TypeError]. *)
Definition valid_header_char (c : ascii) : bool :=
  let n := nat_of_ascii c in
  Nat.eqb n 9 || (Nat.leb 32 n && negb (Nat.eqb n 127)).

Fixpoint valid_header_value (value : string) : bool :=
  match value with
  | EmptyString => true
  | String c rest => valid_header_char c && valid_header_value rest
  end.

Definition invalid_header (name : string) : JsError :=
  TypeError ("Invalid character in header content [" +:+ quote +:+ name +:+ quote +:+ "]").

Definition store_header (name value : string) : M unit :=
  on_res (fun r => mkRes (statusCode r) (set_header name value (headers r)) (sent r)).

Definition setHeader (name value : string) : M unit :=
  if valid_header_value value then store_header name value
  else throw (invalid_header name).

Definition json (b : Body) : M unit :=
  on_res (fun r => mkRes (statusCode r) (headers r) (Some b)).

(** [res.links(links)]: the [Link] header, one entry per relation.  Its
    value is made of the protocol and the host of the request, of digits
    and of punctuation; the first two come out of the HTTP parser, which
    refuses a request with a control character in a header, so the check
    of the header value passes and the header is stored. *)

Definition link_header (links : Links) : string :=
  String.concat ", "
    (List.map (fun l => "<" +:+ snd l +:+ ">; rel=" +:+ quote +:+ fst l +:+ quote) links).

Definition links (ls : Links) : M unit := store_header "Link" (link_header ls).

(** Running a handler on a store, with a fresh response object. *)
Definition run (handler : M unit) (db : DB) : DB * Res :=
  let s := fst (handler (mkSt db fresh_res)) in (store s, res s).

(** A string is truthy unless it is missing or empty. *)
Definition truthy (s : option string) : option string :=
  match s with
  | Some EmptyString => None
  | other => other
  end.

(** *** [getAppointments] (l.7-75) *)

Definition page_of (req : Request) : Param := from_option PStr (PNum 1) (query_page req).
Definition limit_of (req : Request) : Param := from_option PStr (PNum 10) (query_limit_param req).

(** The [links] object of l.41-56, keys in insertion order. *)
Definition page_links (baseUrl : string) (page limit : Param) (totalPages : Num) : Links :=
  let url (p : string) := baseUrl +:+ "?page=" +:+ p +:+ "&limit=" +:+ show_param limit in
  ("self", url (show_param page)) ::
  (if num_gt totalPages 0 then
     ("first", url "1") :: ("last", url (show totalPages)) ::
     List.app (if param_gt page 1 then [("prev", url (minus_one page))] else [])
              (if param_lt page totalPages then [("next", url (plus_one page))] else [])
   else []).

(** The argument of [findAndCountAll] (l.18-35). *)
Definition list_query (req : Request) : Query :=
  let page := page_of req in
  let limit := limit_of req in
  let sortBy := default "startTime" (query_sortBy req) in
  let order := default "DESC" (query_orderBy req) in
  {| where_startTime_gte := truthy (query_startDate req);
     where_endTime_lte := truthy (query_endDate req);
     query_limit := parseInt limit;
     query_offset := num_mul (num_sub (parseInt page) (Int 1)) (parseInt limit);
     query_order := (sortBy, order) |}.

Definition getAppointments (req : Request) : M unit :=
  try_catch
    (let page := page_of req in
     let limit := limit_of req in
     found ← reading (findAndCountAll (list_query req));
     let count := fst found in
     let appointments := snd found in
     let totalPages := ceil_div count limit in
     let baseUrl := protocol req +:+ "://" +:+ host req +:+ "/appointments" in
     let ls := page_links baseUrl page limit totalPages in
     links ls;;
     json (PageBody appointments count page limit totalPages ls))
    (fun err => status 500;; json (ErrorBody (err_message err))).

(** *** [getAppointmentById] (l.78-133)

    [baseUrl] is declared inside the [if] block, so the [else] block,
    which also reads it, raises after [res.status(404)] has run. *)
Definition appointment_links (baseUrl : string) (appointment : Instance) : ActionLinks :=
  let one := baseUrl +:+ "/appointments/" +:+ template (attr "id" appointment) in
  [("self", (one, "GET"));
   ("schedule", (baseUrl +:+ "/schedules/" +:+ template (attr "scheduleId" appointment), "GET"));
   ("user", (baseUrl +:+ "/users/" +:+ template (attr "userId" appointment), "GET"));
   ("collection", (baseUrl +:+ "/appointments", "GET"));
   ("update", (one, "PUT"));
   ("delete", (one, "DELETE"))].

Definition getAppointmentById (req : Request) : M unit :=
  try_catch
    (found ← reading (findByPk (param_id req));
     match found with
     | Some appointment =>
         let baseUrl := protocol req +:+ "://" +:+ host req in
         json (InstanceBody appointment (Some (appointment_links baseUrl appointment)))
     | None =>
         status 404;;
         throw (ReferenceError "baseUrl is not defined")
     end)
    (fun err => status 500;; json (ErrorBody (err_message err))).

(** *** [createAppointment] (l.136-152) *)
Definition createAppointment (req : Request) : M unit :=
  try_catch
    (newAppointment ← writing (create (body req));
     let baseUrl := protocol req +:+ "://" +:+ host req in
     let resourceUrl := baseUrl +:+ "/appointments/" +:+ template (attr "id" newAppointment) in
     setHeader "Location" resourceUrl;;
     status 201;;
     json (InstanceBody newAppointment None))
    (fun err => status 400;; json (ErrorBody (err_message err))).

(** *** [updateAppointment] (l.155-167) *)
Definition updateAppointment (req : Request) : M unit :=
  try_catch
    (found ← reading (findByPk (param_id req));
     match found with
     | Some appointment =>
         appointment' ← saving appointment (body req);
         json (InstanceBody appointment' None)
     | None => status 404;; json (MessageBody "Appointment not found")
     end)
    (fun err => status 400;; json (ErrorBody (err_message err))).

(** *** [deleteAppointment] (l.170-182) *)
Definition deleteAppointment (req : Request) : M unit :=
  try_catch
    (found ← reading (findByPk (param_id req));
     match found with
     | Some appointment =>
         destroying appointment;;
         json (MessageBody "Appointment deleted")
     | None => status 404;; json (MessageBody "Appointment not found")
     end)
    (fun err => status 500;; json (ErrorBody (err_message err))).

(** *** [getAppointmentsByUserId] (l.185-195) *)
Definition getAppointmentsByUserId (req : Request) : M unit :=
  try_catch
    (appointments ← reading (findAll "userId" (param_userId req));
     json (InstancesBody appointments))
    (fun err => status 500;; json (ErrorBody (err_message err))).

(** *** [deleteAppointmentsByUserId] (l.198-208) *)
Definition deleteAppointmentsByUserId (req : Request) : M unit :=
  try_catch
    (result ← writing (destroy "userId" (param_userId req));
     json (MessageBody (show_N result +:+ " appointments made by student "
                        +:+ param_userId req +:+ " canceled.")))
    (fun err => status 500;; json (ErrorBody (err_message err))).

(** *** [getAppointmentsByScheduleId] (l.211-221) *)
Definition getAppointmentsByScheduleId (req : Request) : M unit :=
  try_catch
    (appointments ← reading (findAll "scheduleId" (param_scheduleId req));
     json (InstancesBody appointments))
    (fun err => status 500;; json (ErrorBody (err_message err))).

(** *** [errorHandler] (l.253-280)

    An Express error middleware.  No handler of this file passes an
    error on to it, and [module.exports] does not list it. *)
Definition errorHandler (err : JsError) : M unit :=
  if String.eqb (err_name err) "SequelizeValidationError" then
    status 400;;
    json (FailureBody "error" "VALIDATION_ERROR" "Invalid input data" (Some (err_errors err)))
  else if String.eqb (err_name err) "SequelizeUniqueConstraintError" then
    status 409;;
    json (FailureBody "error" "CONFLICT" "Resource already exists" None)
  else
    status 500;;
    json (FailureBody "error" "INTERNAL_ERROR" "An unexpected error occurred" None).

(** *** The handlers by name *)

Inductive Handler :=
| GetAppointments
| GetAppointmentById
| CreateAppointment
| UpdateAppointment
| DeleteAppointment
| GetAppointmentsByUserId
| DeleteAppointmentsByUserId
| GetAppointmentsByScheduleId.

Definition handle (h : Handler) : Request -> M unit :=
  match h with
  | GetAppointments => getAppointments
  | GetAppointmentById => getAppointmentById
  | CreateAppointment => createAppointment
  | UpdateAppointment => updateAppointment
  | DeleteAppointment => deleteAppointment
  | GetAppointmentsByUserId => getAppointmentsByUserId
  | DeleteAppointmentsByUserId => deleteAppointmentsByUserId
  | GetAppointmentsByScheduleId => getAppointmentsByScheduleId
  end.

(** The status each handler's own [catch] block answers with. *)
Definition catch_status (h : Handler) : Z :=
  match h with
  | CreateAppointment | UpdateAppointment => 400
  | _ => 500
  end.

(** [raised h req d e]: a model call that [h] makes for [req] on the
    store [d] raises [e]. *)
Definition raised (h : Handler) (req : Request) (d : DB) (e : JsError) : Prop :=
  match h with
  | GetAppointments => findAndCountAll (list_query req) d = inl e
  | GetAppointmentById => findByPk (param_id req) d = inl e
  | CreateAppointment => snd (create (body req) d) = inl e
  | UpdateAppointment =>
      findByPk (param_id req) d = inl e \/
      exists appointment, findByPk (param_id req) d = inr (Some appointment) /\
        snd (instance_update appointment (body req) d) = Some e
  | DeleteAppointment =>
      findByPk (param_id req) d = inl e \/
      exists appointment, findByPk (param_id req) d = inr (Some appointment) /\
        snd (instance_destroy appointment d) = Some e
  | GetAppointmentsByUserId => findAll "userId" (param_userId req) d = inl e
  | DeleteAppointmentsByUserId => snd (destroy "userId" (param_userId req) d) = inl e
  | GetAppointmentsByScheduleId => findAll "scheduleId" (param_scheduleId req) d = inl e
  end.

(** The status by error kind, as the specification words it:
    validation 400, unique constraint 409, anything else 500. *)
Definition kind_status (e : JsError) : Z :=
  if String.eqb (err_name e) "SequelizeValidationError" then 400
  else if String.eqb (err_name e) "SequelizeUniqueConstraintError" then 409
  else 500.

(** The URL a list of links gives a relation, if any. *)
Definition link (rel : string) (ls : Links) : option string :=
  snd <$> List.find (fun l => String.eqb (fst l) rel) ls.

(** The page comparisons of the listing, on the numbers compared: the
    collection has pages, the page is before the last, after the first. *)
Definition has_pages (totalPages : Num) : Prop :=
  match totalPages with
  | NaN => False
  | Infinity => True
  | Int z => (0 < z)%Z
  end.

Definition before_last (page : Param) (totalPages : Num) : Prop :=
  match totalPages with
  | NaN => False
  | Infinity => True
  | Int z => (to_number page < z)%Z
  end.

Definition after_first (page : Param) : Prop := (1 < to_number page)%Z.

(** The page URL of l.43-54. *)
Definition page_url (req : Request) (p : string) : string :=
  let baseUrl := protocol req +:+ "://" +:+ host req +:+ "/appointments" in
  baseUrl +:+ "?page=" +:+ p +:+ "&limit=" +:+ show_param (limit_of req).

(** The [_links] of a listing response. *)
Definition links_of (r : Res) : Links :=
  match sent r with
  | Some (PageBody _ _ _ _ _ ls) => ls
  | _ => []
  end.


(** The error mapping as the specification words it, for a handler. *)
Definition maps_by_kind (h : Handler) : Prop :=
  forall (req : Request) (d : DB) (e : JsError),
    raised h req d e -> statusCode (snd (run (handle h req) d)) = kind_status e.

End Handlers.
End Crud.

(** ** The asynchronous patterns *)

Module Loop.
Section Machine.
Context `{Orm}.

(** *** The operation tracker *)

Inductive Status := processing | completed | failed.

(** The value stored under an operation or job id. *)
Record OpRecord := mkRecord {
  status : Status;
  resourceType : option string;
  resourceId : option Json;
  operation : option string;
  data : option Json;
  result : option Instance;
  error : option string
}.

(** Modelled from the spec: [utils/cache], the key-value store behind
    the tracker, is not among the sources; [cache.set(id, record)] stores
    or overwrites the record for [id] (spec section 4.1) and nothing in
    the controller removes a key. *)
Definition cache_set (key : string) (record : OpRecord)
    (c : gmap string OpRecord) : gmap string OpRecord := <[key := record]> c.

(** The records the controller writes. *)
Definition job_completed : OpRecord :=
  mkRecord completed None None None None None None.

Definition job_failed (e : JsError) : OpRecord :=
  mkRecord failed None None None None None (Some (err_message e)).

Definition op_processing (appointmentId : string) (payload : Json) : OpRecord :=
  mkRecord processing (Some "appointment") (Some (JStr appointmentId)) (Some "update")
           (Some payload) None None.

Definition op_completed (appointment : Instance) : OpRecord :=
  mkRecord completed (Some "appointment") (attr "id" appointment) (Some "update")
           None (Some appointment) None.

Definition op_failed (appointment : Instance) (e : JsError) : OpRecord :=
  mkRecord failed (Some "appointment") (attr "id" appointment) (Some "update")
           None None (Some (err_message e)).

(** The record [processAppointmentUpdate] writes after its update. *)
Definition op_outcome (appointment : Instance) (raised : option JsError) : OpRecord :=
  match raised with
  | None => op_completed appointment
  | Some e => op_failed appointment e
  end.

(** *** Tasks

    A task is a piece of the controller suspended at an [await]: the
    constructor names the awaited call, its arguments are the variables
    that are live after it. *)
Inductive Task :=
(** l.238: [await Appointment.update(appt, { where: { id: appt.id } })] *)
| BulkUpdate (jobId : string) (appt : Json) (id : option Json) (rest : list Json)
(** l.243 and l.245: [await cache.set(jobId, record)] *)
| BulkSet (jobId : string) (record : OpRecord)
(** l.285: [await Appointment.findByPk(appointmentId)] *)
| AsyncFind (req : Request)
(** l.299: [await cache.set(operationId, { status: 'processing', ... })] *)
| AsyncSet (req : Request) (appointment : Instance) (operationId statusUrl : string)
(** l.328: [await new Promise(resolve => setTimeout(resolve, 5000))] *)
| ProcessTimer (operationId : string) (appointment : Instance) (updateData : Json) (due : N)
(** l.331: [await appointment.update(updateData)] *)
| ProcessUpdate (operationId : string) (appointment : Instance) (updateData : Json)
(** l.334 and l.343: [await cache.set(operationId, record)] *)
| ProcessSet (operationId : string) (record : OpRecord).

(** What an observer of the server sees, each event tagged with the
    request it belongs to. *)
Inductive Event :=
| Responded (rid : nat) (r : Res)
| CacheSet (rid : nat) (key : string) (record : OpRecord)
| ModelUpdated (rid : nat) (values : Json) (id : option Json) (raised : option JsError)
| InstanceUpdated (rid : nat) (appointment : Instance) (values : Json) (raised : option JsError).

Definition request_of (ev : Event) : nat :=
  match ev with
  | Responded rid _ => rid
  | CacheSet rid _ _ => rid
  | ModelUpdated rid _ _ _ => rid
  | InstanceUpdated rid _ _ _ => rid
  end.

(** The server: the store, the tracker, the clock in milliseconds, the
    number of requests received, the suspended tasks by request and the
    events so far. *)
Record World := mkWorld {
  db : DB;
  cache : gmap string OpRecord;
  clock : N;
  next_request : nat;
  tasks : gmap nat Task;
  log : list Event
}.

Definition initial (db0 : DB) (now : N) : World := mkWorld db0 ∅ now 0 ∅ [].

Definition emit (evs : list Event) (w : World) : World :=
  mkWorld (db w) (cache w) (clock w) (next_request w) (tasks w) (log w ++ evs).

Definition suspend (rid : nat) (t : Task) (w : World) : World :=
  mkWorld (db w) (cache w) (clock w) (next_request w) (<[rid := t]> (tasks w)) (log w).

Definition finish (rid : nat) (w : World) : World :=
  mkWorld (db w) (cache w) (clock w) (next_request w) (delete rid (tasks w)) (log w).

Definition stored (key : string) (record : OpRecord) (w : World) : World :=
  mkWorld (db w) (cache_set key record (cache w)) (clock w) (next_request w) (tasks w) (log w).

Definition with_db (db' : DB) (w : World) : World :=
  mkWorld db' (cache w) (clock w) (next_request w) (tasks w) (log w).

Definition accept (w : World) : World :=
  mkWorld (db w) (cache w) (clock w) (S (next_request w)) (tasks w) (log w).

Definition advance (ms : N) (w : World) : World :=
  mkWorld (db w) (cache w) (clock w + ms)%N (next_request w) (tasks w) (log w).

(** *** [bulkUpdateAppointments] (l.223-251) *)

(** The loop of l.237 at its head: the next statement to await. *)
Definition bulk_next (jobId : string) (items : list Json) : Task :=
  match items with
  | [] => BulkSet jobId job_completed
  | appt :: rest =>
      match get_prop "id" appt with
      | inl e => BulkSet jobId (job_failed e)
      | inr id => BulkUpdate jobId appt id rest
      end
  end.

(** The callback of l.234 up to its first [await]. *)
Definition bulk_start (jobId : string) (appointments : option Json) : Task :=
  match iterate "appointments" appointments with
  | inl e => BulkSet jobId (job_failed e)
  | inr items => bulk_next jobId items
  end.

Definition bulk_response (jobId : string) : Res :=
  mkRes 202 [] (Some (AcceptedBody "Update job accepted" ("/appointments/jobs/" +:+ jobId) None)).

(** The handler answers and queues the callback, which runs as soon as
    the handler returns.  Destructuring a null body raises before
    anything is sent.  ([module.exports] does not list this handler.) *)
Definition bulkUpdateAppointments (req : Request) (w : World) : World :=
  let rid := next_request w in
  match get_prop "appointments" (body req) with
  | inl _ => accept w
  | inr appointments =>
      let jobId := timestamp_id (clock w) in
      suspend rid (bulk_start jobId appointments)
        (emit [Responded rid (bulk_response jobId)] (accept w))
  end.

(** *** [updateAppointmentAsync] (l.282-322) and
        [processAppointmentUpdate] (l.325-351) *)

Definition async_response (statusUrl operationId : string) : Res :=
  mkRes 202 [("Location", statusUrl)]
        (Some (AcceptedBody "Update request accepted" statusUrl (Some operationId))).

Definition not_found_response : Res :=
  mkRes 404 [] (Some (MessageBody "Appointment not found")).

Definition bad_request_response (err : JsError) : Res :=
  mkRes 400 [] (Some (ErrorBody (err_message err))).

Definition updateAppointmentAsync (req : Request) (w : World) : World :=
  suspend (next_request w) (AsyncFind req) (accept w).

(** *** The event loop

    [resume rid entropy w]: the call awaited by the task of request [rid]
    completes, and the task runs on to its next [await] or to its end.
    [entropy] is what the random generator yields should the task ask. *)
Definition resume (rid : nat) (entropy : N) (w : World) : World :=
  match tasks w !! rid with
  | None => w
  | Some (AsyncFind req) =>
      match findByPk (param_id req) (db w) with
      | inl err => emit [Responded rid (bad_request_response err)] (finish rid w)
      | inr None => emit [Responded rid not_found_response] (finish rid w)
      | inr (Some appointment) =>
          let operationId := randomUUID entropy in
          let baseUrl := protocol req +:+ "://" +:+ host req in
          let statusUrl := baseUrl +:+ "/operations/" +:+ operationId in
          suspend rid (AsyncSet req appointment operationId statusUrl) w
      end
  | Some (AsyncSet req appointment operationId statusUrl) =>
      let record := op_processing (param_id req) (body req) in
      emit [CacheSet rid operationId record; Responded rid (async_response statusUrl operationId)]
        (suspend rid (ProcessTimer operationId appointment (body req) (clock w + 5000)%N)
          (stored operationId record w))
  | Some (ProcessTimer operationId appointment updateData due) =>
      if (due <=? clock w)%N
      then suspend rid (ProcessUpdate operationId appointment updateData) w
      else w
  | Some (ProcessUpdate operationId appointment updateData) =>
      let '(db', appointment', raised) := instance_update appointment updateData (db w) in
      let record := op_outcome appointment' raised in
      emit [InstanceUpdated rid appointment updateData raised]
        (suspend rid (ProcessSet operationId record) (with_db db' w))
  | Some (ProcessSet operationId record) =>
      emit [CacheSet rid operationId record] (finish rid (stored operationId record w))
  | Some (BulkUpdate jobId appt id rest) =>
      let '(db', raised) := update appt id (db w) in
      let t :=
        match raised with
        | None => bulk_next jobId rest
        | Some e => BulkSet jobId (job_failed e)
        end in
      emit [ModelUpdated rid appt id raised] (suspend rid t (with_db db' w))
  | Some (BulkSet jobId record) =>
      emit [CacheSet rid jobId record] (finish rid (stored jobId record w))
  end.

Inductive Input :=
| Tick (ms : N)
| BulkRequest (req : Request)
| AsyncRequest (req : Request)
| Resume (rid : nat) (entropy : N).

Definition step (i : Input) (w : World) : World :=
  match i with
  | Tick ms => advance ms w
  | BulkRequest req => bulkUpdateAppointments req w
  | AsyncRequest req => updateAppointmentAsync req w
  | Resume rid entropy => resume rid entropy w
  end.

Definition run (inputs : list Input) (w : World) : World :=
  fold_left (fun w i => step i w) inputs w.

(** The events of one request, oldest first. *)
Definition events_of (rid : nat) (evs : list Event) : list Event :=
  List.filter (fun ev => Nat.eqb (request_of ev) rid) evs.

(** Inputs that leave the task of request [rid] alone. *)
Definition other (rid : nat) (i : Input) : Prop :=
  match i with
  | Resume rid' _ => rid' <> rid
  | _ => True
  end.

(** How often a schedule resumes request [rid]. *)
Definition resumes (rid : nat) (inputs : list Input) : nat :=
  length (List.filter (fun i => match i with Resume rid' _ => Nat.eqb rid' rid | _ => false end)
                      inputs).

(** The last record the log has written under a key. *)
Definition write_of (key : string) (ev : Event) : option OpRecord :=
  match ev with
  | CacheSet _ k record => if String.eqb k key then Some record else None
  | _ => None
  end.

Fixpoint last_write (key : string) (evs : list Event) : option OpRecord :=
  match evs with
  | [] => None
  | ev :: rest =>
      match last_write key rest with
      | Some record => Some record
      | None => write_of key ev
      end
  end.

(** All the records the log has written under a key, oldest first. *)
Definition writes (key : string) (evs : list Event) : list OpRecord :=
  flat_map (fun ev => match write_of key ev with Some r => [r] | None => [] end) evs.

(** The [Appointment.update] calls of one request: values and outcome. *)
Definition model_update_of (rid : nat) (ev : Event) : list (Json * option JsError) :=
  match ev with
  | ModelUpdated rid' values _ raised => if Nat.eqb rid' rid then [(values, raised)] else []
  | _ => []
  end.

Definition model_updates (rid : nat) (evs : list Event) : list (Json * option JsError) :=
  flat_map (model_update_of rid) evs.

(** [appt.id] where it can be read. *)
Definition id_of (appt : Json) : option Json :=
  match get_prop "id" appt with
  | inr id => id
  | inl _ => None
  end.

(** The event of an update that went through. *)
Definition updated (rid : nat) (appt : Json) : Event :=
  ModelUpdated rid appt (id_of appt) None.

(** How many resumptions a bulk job needs at most: one per item and one
    for the tracker write. *)
Definition bulk_work (appointments : option Json) : nat :=
  match iterate "appointments" appointments with
  | inr items => S (length items)
  | inl _ => 1
  end.

(** How a bulk job over [appointments] can end: the updates it has
    made by then and the record it writes. *)
Inductive BulkOutcome (rid : nat) (appointments : option Json) :
    list Event -> OpRecord -> Prop :=
| AllUpdated (items : list Json) :
    iterate "appointments" appointments = inr items ->
    BulkOutcome rid appointments (List.map (updated rid) items) job_completed
| UpdateRaised (pre post : list Json) (x : Json) (id : option Json) (e : JsError) :
    iterate "appointments" appointments = inr (pre ++ x :: post) ->
    get_prop "id" x = inr id ->
    BulkOutcome rid appointments
      (List.map (updated rid) pre ++ [ModelUpdated rid x id (Some e)]) (job_failed e)
| ItemUnreadable (pre post : list Json) (x : Json) (e : JsError) :
    iterate "appointments" appointments = inr (pre ++ x :: post) ->
    get_prop "id" x = inl e ->
    BulkOutcome rid appointments (List.map (updated rid) pre) (job_failed e)
| NotIterable (e : JsError) :
    iterate "appointments" appointments = inl e ->
    BulkOutcome rid appointments [] (job_failed e).

(** Where a bulk job stands: its suspended task against its events. *)
Definition bulk_state (rid : nat) (jobId : string) (appointments : option Json)
    (t : option Task) (evs : list Event) : Prop :=
  let head := Responded rid (bulk_response jobId) in
  match t with
  | Some (BulkUpdate j x id rest) =>
      j = jobId /\ get_prop "id" x = inr id /\
      exists pre, iterate "appointments" appointments = inr (pre ++ x :: rest) /\
        evs = head :: List.map (updated rid) pre
  | Some (BulkSet j record) =>
      j = jobId /\
      exists updates, BulkOutcome rid appointments updates record /\ evs = head :: updates
  | Some _ => False
  | None =>
      exists updates record, BulkOutcome rid appointments updates record /\
        evs = head :: updates ++ [CacheSet rid jobId record]
  end.

(** The resumptions a bulk task still needs at most. *)
Definition bulk_left (t : option Task) : nat :=
  match t with
  | Some (BulkUpdate _ _ _ rest) => 2 + length rest
  | Some (BulkSet _ _) => 1
  | _ => 0
  end.

(** The status URL of l.295-296 and the two events of an accepted
    operation. *)
Definition status_url (req : Request) (operationId : string) : string :=
  let baseUrl := protocol req +:+ "://" +:+ host req in
  baseUrl +:+ "/operations/" +:+ operationId.

Definition accepted (rid : nat) (req : Request) (operationId : string) : list Event :=
  [CacheSet rid operationId (op_processing (param_id req) (body req));
   Responded rid (async_response (status_url req operationId) operationId)].

(** Where an asynchronous update stands: its suspended task against
    its events. *)
Definition async_state (rid : nat) (req : Request)
    (t : option Task) (evs : list Event) : Prop :=
  match t with
  | Some (AsyncFind r) => r = req /\ evs = []
  | Some (AsyncSet r _ operationId statusUrl) =>
      r = req /\ statusUrl = status_url req operationId /\ evs = []
  | Some (ProcessTimer operationId _ updateData _)
  | Some (ProcessUpdate operationId _ updateData) =>
      updateData = body req /\ evs = accepted rid req operationId
  | Some (ProcessSet operationId record) =>
      exists a a' raised,
        record = op_outcome a' raised /\
        evs = accepted rid req operationId ++ [InstanceUpdated rid a (body req) raised]
  | Some _ => False
  | None =>
      (exists err, evs = [Responded rid (bad_request_response err)]) \/
      evs = [Responded rid not_found_response] \/
      exists operationId a a' raised,
        evs = accepted rid req operationId ++
              [InstanceUpdated rid a (body req) raised;
               CacheSet rid operationId (op_outcome a' raised)]
  end.

(** The records one request has written, oldest first. *)
Definition record_of (rid : nat) (ev : Event) : list OpRecord :=
  match ev with
  | CacheSet rid' _ record => if Nat.eqb rid' rid then [record] else []
  | _ => []
  end.

Definition records_of (rid : nat) (evs : list Event) : list OpRecord :=
  flat_map (record_of rid) evs.

Definition terminal (record : OpRecord) : Prop :=
  status record = completed \/ status record = failed.

(** The [cache.set] calls of one request, oldest first, each with its
    key and its record. *)
Definition is_set (ev : Event) : bool :=
  match ev with
  | CacheSet _ _ _ => true
  | _ => false
  end.

Definition sets_of (rid : nat) (evs : list Event) : list Event :=
  List.filter is_set (events_of rid evs).

(** The time a schedule lets pass. *)
Definition ticks (inputs : list Input) : N :=
  fold_right (fun i total => match i with Tick ms => (ms + total)%N | _ => total end)
             0%N inputs.

(** Events by kind: model calls that write to the store, responses. *)
Definition is_update (ev : Event) : bool :=
  match ev with
  | ModelUpdated _ _ _ _ | InstanceUpdated _ _ _ _ => true
  | _ => false
  end.

Definition is_response (ev : Event) : bool :=
  match ev with
  | Responded _ _ => true
  | _ => false
  end.

(** A task of an asynchronous update that has not reached its update,
    with a timer, if set, that is due at [floor] or later. *)
Definition before_update (floor : N) (t : option Task) : Prop :=
  match t with
  | None | Some (AsyncFind _) | Some (AsyncSet _ _ _ _) => True
  | Some (ProcessTimer _ _ _ due) => (floor <= due)%N
  | Some _ => False
  end.

(** The update of the request [rid], which arrived at [arrival], keeps
    its delay: either it has not been made and its timer, if set, is not
    due before 5000 ms after the arrival, or that time has come. *)
Definition delayed (arrival : N) (rid : nat) (w : World) : Prop :=
  (arrival <= clock w)%N /\
  ((before_update (arrival + 5000) (tasks w !! rid) /\
    List.filter is_update (events_of rid (log w)) = []) \/
   (arrival + 5000 <= clock w)%N).

(** A well-formed world: no task and no event belongs to a request that
    has not arrived, and the tracker holds under each key what the log
    wrote there last. *)
Definition wf (w : World) : Prop :=
  (forall rid, next_request w <= rid ->
     tasks w !! rid = None /\ events_of rid (log w) = []) /\
  (forall key, cache w !! key = last_write key (log w)).

(** The store changes through model calls only, and each is logged:
    replaying the logged calls reproduces it. *)
Definition replay_event (ev : Event) (d : DB) : DB :=
  match ev with
  | ModelUpdated _ values id _ => fst (update values id d)
  | InstanceUpdated _ appointment values _ => fst (fst (instance_update appointment values d))
  | _ => d
  end.

Definition replay (evs : list Event) (d : DB) : DB :=
  fold_left (fun d ev => replay_event ev d) evs d.

End Machine.
End Loop.

(** ** A small store for examples

    Rows are JSON objects kept in a list, the primary key is the text of
    their [id].  Values that are not an object or have a null title fail
    validation, a second row with a taken key violates uniqueness, and a
    negative or missing page window is rejected by the database. *)

Module Toy.

Definition validation_error : JsError :=
  mkError "SequelizeValidationError" "notNull Violation: title cannot be null"
          [("title", "title cannot be null")].

Definition unique_error : JsError :=
  mkError "SequelizeUniqueConstraintError" "Validation error" [("id", "id must be unique")].

Definition database_error : JsError :=
  mkError "SequelizeDatabaseError" "syntax error in LIMIT or OFFSET" [].

Definition where_error : JsError :=
  mkError "Error" "WHERE parameter id has invalid undefined value" [].

Definition field (name : string) (row : Json) : option Json :=
  match row with
  | JObj fields => assoc name fields
  | _ => None
  end.

Definition key (row : Json) : string := template (field "id" row).

(** Valid values are an object whose title, if any, is not null. *)
Definition valid (v : Json) : bool :=
  match v with
  | JObj fields =>
      match assoc "title" fields with
      | Some JNull => false
      | _ => true
      end
  | _ => false
  end.

Definition has_key (name : string) (fields : list (string * Json)) : bool :=
  match assoc name fields with
  | Some _ => true
  | None => false
  end.

Definition merge (row values : Json) : Json :=
  match row, values with
  | JObj old, JObj new =>
      JObj (List.app new (List.filter (fun f => negb (has_key (fst f) new)) old))
  | _, _ => row
  end.

Definition window (q : Query) (rows : list Json) : JsError + list Json :=
  match query_limit q, query_offset q with
  | Int l, Int o =>
      if (Z.leb 0 l && Z.leb 0 o)%bool
      then inr (firstn (Z.to_nat l) (skipn (Z.to_nat o) rows))
      else inl database_error
  | _, _ => inl database_error
  end.

Definition orm : Orm := {|
  DB := list Json;
  Instance := Json;
  attr := field;
  findAndCountAll q rows :=
    match window q rows with
    | inl e => inl e
    | inr page => inr (N.of_nat (length rows), page)
    end;
  findByPk id rows := inr (List.find (fun row => String.eqb (key row) id) rows);
  findAll column value rows :=
    inr (List.filter (fun row => String.eqb (template (field column row)) value) rows);
  create values rows :=
    if valid values then
      if List.existsb (fun row => String.eqb (key row) (key values)) rows
      then (rows, inl unique_error)
      else (List.app rows [values], inr values)
    else (rows, inl validation_error);
  instance_update row values rows :=
    if valid values then
      (List.map (fun r => if String.eqb (key r) (key row) then merge row values else r) rows,
       merge row values, None)
    else (rows, row, Some validation_error);
  instance_destroy row rows :=
    (List.filter (fun r => negb (String.eqb (key r) (key row))) rows, None);
  destroy column value rows :=
    let gone := List.filter (fun row => String.eqb (template (field column row)) value) rows in
    (List.filter (fun row => negb (String.eqb (template (field column row)) value)) rows,
     inr (N.of_nat (length gone)));
  update values id rows :=
    match id with
    | None => (rows, Some where_error)
    | Some i =>
        if valid values then
          (List.map (fun r => if String.eqb (key r) (to_str i) then merge r values else r) rows,
           None)
        else (rows, Some validation_error)
    end
|}.

(** A store that cannot be reached: every model call raises. *)
Definition refused_error : JsError :=
  mkError "SequelizeConnectionRefusedError" "connect ECONNREFUSED 127.0.0.1:3306" [].

Definition refused : Orm := {|
  DB := unit;
  Instance := Json;
  attr := field;
  findAndCountAll _ _ := inl refused_error;
  findByPk _ _ := inl refused_error;
  findAll _ _ _ := inl refused_error;
  create _ d := (d, inl refused_error);
  instance_update row _ d := (d, row, Some refused_error);
  instance_destroy _ d := (d, Some refused_error);
  destroy _ _ d := (d, inl refused_error);
  update _ _ d := (d, Some refused_error)
|}.

(** Some rows and requests. *)
Definition row (id : Z) (title : string) : Json :=
  JObj [("id", JNum id); ("title", JStr title)].

Definition request (id : string) (payload : Json) : Request :=
  mkRequest "http" "localhost:3000" id "7" "3" None None None None None None payload.

Definition listing (page limit : uint) : Request :=
  mkRequest "http" "localhost:3000" "1" "7" "3" (Some page) (Some limit)
            None None None None (JObj []).

Definition rows (n : nat) : @DB orm :=
  List.map (fun i => row (Z.of_nat i) "slot") (seq 1 n).



(** A bulk submission whose second item has a null title, one that is
    fine, and an update of appointment 1. *)
Definition item (id : Z) (title : Json) : Json := JObj [("id", JNum id); ("title", title)].

Definition bulk_failing : Request :=
  request EmptyString
    (JObj [("appointments",
            JArr [item 1 (JStr "moved"); item 2 JNull; item 3 (JStr "late")])]).

Definition bulk_fine : Request :=
  request EmptyString (JObj [("appointments", JArr [item 2 (JStr "kept")])]).

Definition move : Request := request "1" (JObj [("title", JStr "moved")]).

Definition missing : Request := request "9" (JObj [("title", JStr "moved")]).

(** A server with three appointments, at some millisecond. *)
Definition server : @Loop.World orm := @Loop.initial orm (rows 3) 1700000000000%N.

(** Two bulk requests arrive within the same millisecond and both run
    to their end. *)
Definition two_jobs : @Loop.World orm :=
  @Loop.run orm
    [Loop.BulkRequest bulk_failing; Loop.BulkRequest bulk_fine;
     Loop.Resume 0 0; Loop.Resume 0 0; Loop.Resume 0 0;
     Loop.Resume 1 0; Loop.Resume 1 0]
    server.


End Toy.

(** * Properties of the coercions *)

Section Coercions.

Lemma text_append_one (digits : uint) : text digits +:+ "1" = text (append_one digits).
Proof.
  unfold text.
  induction digits; cbn [append_one NilEmpty.string_of_uint];
    rewrite <- ?IHdigits; reflexivity.
Qed.

Lemma of_uint_acc_append_one (digits : uint) (acc : positive) :
  Pos.of_uint_acc (append_one digits) acc = (10 * Pos.of_uint_acc digits acc + 1)%positive.
Proof.
  revert acc.
  induction digits; intros acc; cbn [append_one Pos.of_uint_acc];
    rewrite ?IHdigits; try reflexivity; lia.
Qed.

(** Read as a number, [p + "1"] is ten times [p] plus one. *)
Lemma of_uint_append_one (digits : uint) :
  N.of_uint (append_one digits) = (10 * N.of_uint digits + 1)%N.
Proof.
  unfold N.of_uint.
  induction digits; cbn [append_one Pos.of_uint];
    rewrite ?of_uint_acc_append_one; try lia; reflexivity.
Qed.

Lemma text_inj (d d' : uint) : text d = text d' -> d = d'.
Proof.
  unfold text. intros Heq.
  assert (Hsome : Some d = Some d')
    by (rewrite <- (NilEmpty.usu d), <- (NilEmpty.usu d'), Heq; reflexivity).
  congruence.
Qed.

Lemma show_Z_pos (p : positive) : show_Z (Z.pos p) = text (Pos.to_uint p).
Proof.
  unfold show_Z, text. cbn.
  pose proof (DecimalPos.Unsigned.to_uint_nonnil p) as Hnil.
  destruct (Pos.to_uint p); [contradiction | reflexivity ..].
Qed.

(** String concatenation is not the successor: [p + "1"] differs from
    the text of [p + 1] for every [p] above zero. *)
Lemma plus_one_not_successor (digits : uint) :
  (0 < to_number (PStr digits))%Z ->
  plus_one (PStr digits) <> show_Z (to_number (PStr digits) + 1).
Proof.
  cbn [to_number plus_one]. intros Hpos Heq.
  destruct (N.of_uint digits) as [| p] eqn:Hn; [cbn in Hpos; lia |].
  replace (Z.of_N (N.pos p) + 1)%Z with (Z.pos (p + 1)) in Heq by lia.
  rewrite show_Z_pos, text_append_one in Heq.
  apply text_inj in Heq.
  apply (f_equal N.of_uint) in Heq.
  rewrite of_uint_append_one, Hn in Heq.
  unfold N.of_uint in Heq. rewrite DecimalPos.Unsigned.of_to in Heq. lia.
Qed.

Lemma to_uint_nonnil (n : N) : N.to_uint n <> Nil.
Proof.
  destruct n as [| p]; [discriminate | apply DecimalPos.Unsigned.to_uint_nonnil].
Qed.

(** Job ids of different clock readings differ: two bulk jobs share
    theirs exactly when they are accepted within the same millisecond. *)
Lemma timestamp_id_inj (now now' : N) : timestamp_id now = timestamp_id now' -> now = now'.
Proof.
  unfold timestamp_id, show_N. intros Heq.
  apply DecimalN.Unsigned.to_uint_inj.
  assert (Hsome : Some (N.to_uint now) = Some (N.to_uint now')).
  { rewrite <- (NilZero.usu (N.to_uint now)) by apply to_uint_nonnil.
    rewrite <- (NilZero.usu (N.to_uint now')) by apply to_uint_nonnil.
    rewrite Heq. reflexivity. }
  congruence.
Qed.

Lemma digits_have_no_dash (digits : uint) (n : nat) :
  String.get n (NilEmpty.string_of_uint digits) <> Some "-"%char.
Proof.
  revert n. induction digits; intros [| n]; cbn; try discriminate; apply IHdigits.
Qed.

(** X21: an operation id is never a job id: the identifier that
    updateAppointmentAsync draws has a dash as ninth character, the one
    that bulkUpdateAppointments derives from the clock has digits only,
    so the two patterns never write under the same tracker key. *)
Theorem operation_id_is_no_job_id (entropy now : N) : randomUUID entropy <> timestamp_id now.
Proof.
  intros Heq. apply (f_equal (String.get 8)) in Heq.
  change (String.get 8 (randomUUID entropy)) with (Some "-"%char) in Heq.
  assert (Hdigits : timestamp_id now = NilEmpty.string_of_uint (N.to_uint now)).
  { unfold timestamp_id, show_N, NilZero.string_of_uint.
    pose proof (to_uint_nonnil now) as Hnil.
    destruct (N.to_uint now); [contradiction | reflexivity ..]. }
  rewrite Hdigits in Heq. symmetry in Heq. exact (digits_have_no_dash _ _ Heq).
Qed.

End Coercions.

(** * Properties of the synchronous handlers *)

Section CrudProperties.
Context `{Orm}.
Import Crud.

Ltac run_handler :=
  unfold run, getAppointments, getAppointmentById, createAppointment, updateAppointment,
    deleteAppointment, getAppointmentsByUserId, deleteAppointmentsByUserId,
    getAppointmentsByScheduleId, errorHandler, try_catch, saving, destroying, reading,
    writing, links, status, setHeader, store_header, json, on_res, throw, mbind, mret, M_bind, M_ret;
  cbn [store res fst snd].

Lemma errorHandler_status (e : JsError) (d : DB) :
  statusCode (snd (run (errorHandler e) d)) = kind_status e.
Proof.
  unfold kind_status. run_handler.
  destruct (String.eqb (err_name e) "SequelizeValidationError"); [reflexivity |].
  destruct (String.eqb (err_name e) "SequelizeUniqueConstraintError"); reflexivity.
Qed.

Lemma updateAppointment_missing (req : Request) (d : DB) :
  findByPk (param_id req) d = inr None ->
  run (updateAppointment req) d = (d, mkRes 404 [] (Some (MessageBody "Appointment not found"))).
Proof. intros Hfind. run_handler. rewrite Hfind. reflexivity. Qed.

Lemma deleteAppointment_missing (req : Request) (d : DB) :
  findByPk (param_id req) d = inr None ->
  run (deleteAppointment req) d = (d, mkRes 404 [] (Some (MessageBody "Appointment not found"))).
Proof. intros Hfind. run_handler. rewrite Hfind. reflexivity. Qed.

(** C8: a GET for an appointment that does not exist is answered with
    500 and the message of the ReferenceError its [else] block raises,
    where the claim expects 404 and a not-found message. *)
Theorem getAppointmentById_missing (req : Request) (d : DB) :
  findByPk (param_id req) d = inr None ->
  run (getAppointmentById req) d = (d, mkRes 500 [] (Some (ErrorBody "baseUrl is not defined"))).
Proof. intros Hfind. run_handler. rewrite Hfind. reflexivity. Qed.

(** C7 (as amended): whatever its kind, an error raised by a model
    call of a synchronous handler is answered with the fixed status of
    that handler's own catch block, 400 in createAppointment and
    updateAppointment and 500 in the others, and with the error's message
    as body; telling validation (400) from unique-constraint (409) from
    other errors (500) is what errorHandler does with an error it is
    given. *)
Theorem handler_catch_status (h : Handler) (req : Request) (d : DB) (e : JsError) :
  raised h req d e ->
  (exists d', run (handle h req) d =
     (d', mkRes (catch_status h) [] (Some (ErrorBody (err_message e))))) /\
  statusCode (snd (run (errorHandler e) d)) = kind_status e.
Proof.
  intros Hraised. split; [| apply errorHandler_status].
  destruct h; cbn [raised handle catch_status] in *.
  - run_handler. rewrite Hraised. eauto.
  - run_handler. rewrite Hraised. eauto.
  - run_handler. destruct (create (body req) d) as [d' r]. cbn in Hraised. subst r. eauto.
  - run_handler. destruct Hraised as [Hfind | (appointment & Hfind & Hsave)]; rewrite Hfind.
    + eauto.
    + cbn. destruct (instance_update appointment (body req) d) as [[d' a'] r].
      cbn in Hsave. subst r. eauto.
  - run_handler. destruct Hraised as [Hfind | (appointment & Hfind & Hgone)]; rewrite Hfind.
    + eauto.
    + cbn. destruct (instance_destroy appointment d) as [d' r].
      cbn in Hgone. subst r. eauto.
  - run_handler. rewrite Hraised. eauto.
  - run_handler. destruct (destroy "userId" (param_userId req) d) as [d' r].
    cbn in Hraised. subst r. eauto.
  - run_handler. rewrite Hraised. eauto.
Qed.

Lemma num_gt_has_pages (x : Num) : num_gt x 0 = true <-> has_pages x.
Proof. destruct x; cbn; [easy | easy | apply Z.ltb_lt]. Qed.

Lemma param_lt_before_last (p : Param) (x : Num) : param_lt p x = true <-> before_last p x.
Proof. destruct x; cbn; [easy | easy | apply Z.ltb_lt]. Qed.

Lemma param_gt_after_first (p : Param) : param_gt p 1 = true <-> after_first p.
Proof. apply Z.ltb_lt. Qed.

Lemma getAppointments_found (req : Request) (d : DB) (count : N) (rows : list Instance) :
  findAndCountAll (list_query req) d = inr (count, rows) ->
  let page := page_of req in
  let limit := limit_of req in
  let totalPages := ceil_div count limit in
  let ls := page_links (protocol req +:+ "://" +:+ host req +:+ "/appointments")
                       page limit totalPages in
  run (getAppointments req) d =
    (d, mkRes 200 [("Link", link_header ls)]
              (Some (PageBody rows count page limit totalPages ls))).
Proof. intros Hfound. run_handler. rewrite Hfound. reflexivity. Qed.

Lemma page_links_next (baseUrl : string) (page limit : Param) (totalPages : Num) :
  link "next" (page_links baseUrl page limit totalPages) =
    if (num_gt totalPages 0 && param_lt page totalPages)%bool
    then Some (baseUrl +:+ "?page=" +:+ plus_one page +:+ "&limit=" +:+ show_param limit)
    else None.
Proof.
  unfold page_links, link.
  destruct (num_gt totalPages 0), (param_gt page 1), (param_lt page totalPages); reflexivity.
Qed.

Lemma page_links_prev (baseUrl : string) (page limit : Param) (totalPages : Num) :
  link "prev" (page_links baseUrl page limit totalPages) =
    if (num_gt totalPages 0 && param_gt page 1)%bool
    then Some (baseUrl +:+ "?page=" +:+ minus_one page +:+ "&limit=" +:+ show_param limit)
    else None.
Proof.
  unfold page_links, link.
  destruct (num_gt totalPages 0), (param_gt page 1), (param_lt page totalPages); reflexivity.
Qed.


(** C10: when the page comes from the query string, so as a string of
    digits, and lies strictly between the first and the last page, the
    prev link carries the number page - 1, while the next link carries
    the digits of the page followed by the digit 1, which is never the
    text of page + 1.  The page, the limit and the row count are safe
    integers, so that the numbers of the model are the doubles of the
    code. *)
Theorem getAppointments_next_concatenates
    (req : Request) (d : DB) (count : N) (rows : list Instance) (digits : uint) :
  query_page req = Some digits ->
  findAndCountAll (list_query req) d = inr (count, rows) ->
  safe (to_number (PStr digits)) ->
  safe (to_number (limit_of req)) ->
  safe (Z.of_N count) ->
  after_first (page_of req) ->
  before_last (page_of req) (ceil_div count (limit_of req)) ->
  let r := snd (run (getAppointments req) d) in
  link "prev" (links_of r) = Some (page_url req (show_Z (to_number (PStr digits) - 1))) /\
  link "next" (links_of r) = Some (page_url req (text digits +:+ "1")) /\
  text digits +:+ "1" <> show_Z (to_number (PStr digits) + 1).
Proof.
  intros Hpage Hfound _ _ _ Hfirst Hlast r. subst r.
  rewrite (getAppointments_found _ _ _ _ Hfound). cbn [snd links_of sent].
  rewrite page_links_next, page_links_prev.
  assert (Hp : page_of req = PStr digits) by (unfold page_of; rewrite Hpage; reflexivity).
  rewrite Hp in *.
  pose proof Hfirst as Hgt. apply param_gt_after_first in Hgt.
  pose proof Hlast as Hlt. apply param_lt_before_last in Hlt.
  assert (Hpages : num_gt (ceil_div count (limit_of req)) 0 = true).
  { apply num_gt_has_pages. unfold after_first in Hfirst.
    destruct (ceil_div count (limit_of req)); cbn in *; [easy | easy | lia]. }
  rewrite Hpages, Hgt, Hlt. cbn [andb].
  split; [| split].
  - reflexivity.
  - reflexivity.
  - apply (plus_one_not_successor digits). unfold after_first in Hfirst. lia.
Qed.

(** ** Further properties of the synchronous handlers *)

(** X1: every synchronous handler answers every request, whatever the
    model calls return or raise: a body is sent, and the status is one of
    200, 201, 400, 404 and 500. *)
Theorem handler_always_answers (h : Handler) (req : Request) (d : DB) :
  let r := snd (run (handle h req) d) in
  is_Some (sent r) /\ In (statusCode r) [200; 201; 400; 404; 500]%Z.
Proof.
  intros r. subst r.
  destruct h; cbn [handle]; run_handler;
    repeat match goal with
    | |- context [findAndCountAll ?q ?s] => destruct (findAndCountAll q s) as [? | [? ?]]
    | |- context [findByPk ?i ?s] => destruct (findByPk i s) as [? | [? |]]
    | |- context [findAll ?c ?v ?s] => destruct (findAll c v s) as [? | ?]
    | |- context [create ?v ?s] => destruct (create v s) as [? [? | ?]]
    | |- context [destroy ?c ?v ?s] => destruct (destroy c v s) as [? [? | ?]]
    | |- context [instance_update ?a ?v ?s] =>
        destruct (instance_update a v s) as [[? ?] [? |]]
    | |- context [instance_destroy ?a ?s] => destruct (instance_destroy a s) as [? [? |]]
    | |- context [valid_header_value ?v] => destruct (valid_header_value v)
    end;
    cbn; (split; [eauto | tauto]).
Qed.

(** X2: updating or deleting an appointment that does not exist is
    answered 404 with the message 'Appointment not found', and the store
    is left as it was. *)
Theorem update_delete_missing (req : Request) (d : DB) :
  findByPk (param_id req) d = inr None ->
  run (updateAppointment req) d
    = (d, mkRes 404 [] (Some (MessageBody "Appointment not found"))) /\
  run (deleteAppointment req) d
    = (d, mkRes 404 [] (Some (MessageBody "Appointment not found"))).
Proof.
  intros Hfind. split;
    [apply updateAppointment_missing | apply deleteAppointment_missing]; exact Hfind.
Qed.


(** X4: for an appointment that exists, updateAppointment calls the
    instance update once and deleteAppointment the instance destroy once;
    the store is what that one call leaves, also when it raises; the
    answer is 200 with the updated appointment, respectively with
    'Appointment deleted', and when the call raises 400, respectively 500,
    with the error message. *)
Theorem found_appointment_written_once (req : Request) (d : DB) (appointment : Instance) :
  findByPk (param_id req) d = inr (Some appointment) ->
  let updated := instance_update appointment (body req) d in
  let destroyed := instance_destroy appointment d in
  run (updateAppointment req) d =
    (fst (fst updated),
     match snd updated with
     | None => mkRes 200 [] (Some (InstanceBody (snd (fst updated)) None))
     | Some e => mkRes 400 [] (Some (ErrorBody (err_message e)))
     end) /\
  run (deleteAppointment req) d =
    (fst destroyed,
     match snd destroyed with
     | None => mkRes 200 [] (Some (MessageBody "Appointment deleted"))
     | Some e => mkRes 500 [] (Some (ErrorBody (err_message e)))
     end).
Proof.
  intros Hfind updated destroyed. subst updated destroyed. split.
  - run_handler. rewrite Hfind. cbn.
    destruct (instance_update appointment (body req) d) as [[d' a'] [e |]]; reflexivity.
  - run_handler. rewrite Hfind. cbn.
    destruct (instance_destroy appointment d) as [d' [e |]]; reflexivity.
Qed.

(** X5: the handlers by owner never answer 404: the appointments of a
    user or of a schedule that has none are answered 200 with the list
    the model returns, and deleting the appointments of a user is
    answered 200 with the number of rows deleted in the message, zero
    included. *)
Theorem by_owner_handlers_answer_200 (req : Request) (d d' : DB)
    (ofUser ofSchedule : list Instance) (deleted : N) :
  findAll "userId" (param_userId req) d = inr ofUser ->
  findAll "scheduleId" (param_scheduleId req) d = inr ofSchedule ->
  destroy "userId" (param_userId req) d = (d', inr deleted) ->
  run (getAppointmentsByUserId req) d = (d, mkRes 200 [] (Some (InstancesBody ofUser))) /\
  run (getAppointmentsByScheduleId req) d
    = (d, mkRes 200 [] (Some (InstancesBody ofSchedule))) /\
  run (deleteAppointmentsByUserId req) d =
    (d', mkRes 200 []
           (Some (MessageBody (show_N deleted +:+ " appointments made by student "
                               +:+ param_userId req +:+ " canceled.")))).
Proof.
  intros Huser Hschedule Hdestroy. split; [| split]; run_handler.
  - rewrite Huser. reflexivity.
  - rewrite Hschedule. reflexivity.
  - rewrite Hdestroy. reflexivity.
Qed.

Lemma page_links_self (baseUrl : string) (page limit : Param) (totalPages : Num) :
  link "self" (page_links baseUrl page limit totalPages) =
    Some (baseUrl +:+ "?page=" +:+ show_param page +:+ "&limit=" +:+ show_param limit).
Proof. reflexivity. Qed.


Lemma page_links_last (baseUrl : string) (page limit : Param) (totalPages : Num) :
  link "last" (page_links baseUrl page limit totalPages) =
    if num_gt totalPages 0
    then Some (baseUrl +:+ "?page=" +:+ show totalPages +:+ "&limit=" +:+ show_param limit)
    else None.
Proof. unfold page_links, link. destruct (num_gt totalPages 0); reflexivity. Qed.


Lemma ceil_div_default (count : N) :
  (10 < count)%N -> exists z, ceil_div count (PNum 10) = Int z /\ (1 < z)%Z.
Proof.
  intros Hcount. unfold ceil_div. cbn [to_number Z.eqb]. eexists. split; [reflexivity |].
  assert (Hdiv : (- Z.of_N count / 10 < -1)%Z)
    by (apply Z.div_lt_upper_bound; lia).
  lia.
Qed.

(** X7: a listing without page and limit in the query string asks the
    model for the first 10 rows (limit 10, offset 0); over more than 10
    rows it has no prev link and its next link is to page 2: with the
    default page, a number, page + 1 is an addition. *)
Theorem getAppointments_defaults
    (req : Request) (d : DB) (count : N) (rows : list Instance) :
  query_page req = None ->
  query_limit_param req = None ->
  findAndCountAll (list_query req) d = inr (count, rows) ->
  (10 < count)%N ->
  let r := snd (run (getAppointments req) d) in
  query_limit (list_query req) = Int 10 /\
  query_offset (list_query req) = Int 0 /\
  link "self" (links_of r) = Some (page_url req "1") /\
  link "prev" (links_of r) = None /\
  link "next" (links_of r) = Some (page_url req "2").
Proof.
  intros Hpage Hlimit Hfound Hcount r. subst r.
  rewrite (getAppointments_found _ _ _ _ Hfound). cbn [snd links_of sent].
  rewrite page_links_self, page_links_next, page_links_prev.
  assert (Hp : page_of req = PNum 1) by (unfold page_of; rewrite Hpage; reflexivity).
  assert (Hl : limit_of req = PNum 10) by (unfold limit_of; rewrite Hlimit; reflexivity).
  unfold list_query, page_url. rewrite Hp, Hl.
  destruct (ceil_div_default count Hcount) as (z & -> & Hz).
  cbn [query_limit query_offset parseInt num_sub num_mul num_gt param_gt param_lt to_number].
  replace (0 <? z)%Z with true by (symmetry; apply Z.ltb_lt; lia).
  replace (1 <? z)%Z with true by (symmetry; apply Z.ltb_lt; lia).
  repeat split; reflexivity.
Qed.

(** X8: with a limit that reads as zero and a collection that is not
    empty, the division by zero makes totalPages infinite: the listing
    has a last link to page Infinity and, for every page that is a safe
    integer, so below Infinity, a next link: to the page with the digit 1
    appended when the page is given, to page 2 when it is not. *)
Theorem getAppointments_limit_zero
    (req : Request) (d : DB) (count : N) (rows : list Instance) :
  to_number (limit_of req) = 0%Z ->
  findAndCountAll (list_query req) d = inr (count, rows) ->
  (0 < count)%N ->
  safe (to_number (page_of req)) ->
  let r := snd (run (getAppointments req) d) in
  ceil_div count (limit_of req) = Infinity /\
  link "last" (links_of r) = Some (page_url req "Infinity") /\
  link "next" (links_of r)
    = Some (page_url req (from_option (fun digits => text digits +:+ "1") "2" (query_page req))).
Proof.
  intros Hlimit Hfound Hcount _ r. subst r.
  rewrite (getAppointments_found _ _ _ _ Hfound). cbn [snd links_of sent].
  rewrite page_links_last, page_links_next.
  assert (Hinf : ceil_div count (limit_of req) = Infinity).
  { unfold ceil_div. rewrite Hlimit. cbn [Z.eqb].
    destruct (Z.eqb_spec (Z.of_N count) 0); [lia | reflexivity]. }
  rewrite Hinf. repeat split; try reflexivity.
  unfold page_of. destruct (query_page req); reflexivity.
Qed.

End CrudProperties.

(** * Properties of the event loop *)

Section LoopProperties.
Context `{Orm}.
Import Loop.

(** ** The log and the store *)

Lemma events_of_app (rid : nat) (l1 l2 : list Event) :
  events_of rid (l1 ++ l2) = events_of rid l1 ++ events_of rid l2.
Proof. apply List.filter_app. Qed.

Lemma run_cons (i : Input) (inputs : list Input) (w : World) :
  run (i :: inputs) w = run inputs (step i w).
Proof. reflexivity. Qed.

Lemma replay_app (l1 l2 : list Event) (d : DB) : replay (l1 ++ l2) d = replay l2 (replay l1 d).
Proof. apply fold_left_app. Qed.

(** Every step appends to the log, and the store moves by the model
    calls appended. *)
Lemma step_log (i : Input) (w : World) :
  exists evs, log (step i w) = log w ++ evs /\ db (step i w) = replay evs (db w).
Proof.
  destruct i as [ms | req | req | rid entropy]; cbn [step].
  - exists []. rewrite app_nil_r. done.
  - unfold bulkUpdateAppointments. destruct (get_prop "appointments" (body req)).
    + exists []. rewrite app_nil_r. done.
    + eexists. split; reflexivity.
  - exists []. rewrite app_nil_r. done.
  - unfold resume. destruct (tasks w !! rid) as [t |]; [| exists []; rewrite app_nil_r; done].
    destruct t.
    + destruct (update appt id (db w)) as [db' raised] eqn:Hupdate.
      eexists. split; [reflexivity |]. cbn. rewrite Hupdate. reflexivity.
    + eexists. split; reflexivity.
    + destruct (findByPk (param_id req) (db w)) as [err | [appointment |]].
      * eexists. split; reflexivity.
      * exists []. rewrite app_nil_r. done.
      * eexists. split; reflexivity.
    + eexists. split; reflexivity.
    + destruct (due <=? clock w)%N; exists []; rewrite app_nil_r; done.
    + destruct (instance_update appointment updateData (db w)) as [[db' a'] raised] eqn:Hupdate.
      eexists. split; [reflexivity |]. cbn. rewrite Hupdate. reflexivity.
    + eexists. split; reflexivity.
Qed.

Lemma run_log (inputs : list Input) (w : World) :
  exists evs, log (run inputs w) = log w ++ evs /\ db (run inputs w) = replay evs (db w).
Proof.
  revert w. induction inputs as [| i inputs IH]; intros w.
  - exists []. rewrite app_nil_r. done.
  - rewrite run_cons. destruct (step_log i w) as (evs1 & Hlog1 & Hdb1).
    destruct (IH (step i w)) as (evs2 & Hlog2 & Hdb2).
    exists (evs1 ++ evs2). rewrite Hlog2, Hlog1, Hdb2, Hdb1, replay_app, app_assoc. done.
Qed.

(** ** Requests do not interfere *)

Lemma events_of_own (rid : nat) (ev : Event) :
  request_of ev = rid -> events_of rid [ev] = [ev].
Proof. intros Hev. cbn. rewrite Hev, Nat.eqb_refl. reflexivity. Qed.

Ltac frame :=
  cbn [tasks log next_request emit suspend finish stored with_db accept advance];
  rewrite ?events_of_app, ?lookup_insert_ne, ?lookup_delete_ne by congruence;
  cbn [events_of List.filter request_of];
  repeat match goal with
  | Hne : ?a <> ?b |- context [Nat.eqb ?a ?b] =>
      destruct (Nat.eqb_spec a b); [contradiction |]
  | Hne : ?b <> ?a |- context [Nat.eqb ?a ?b] =>
      destruct (Nat.eqb_spec a b); [congruence |]
  end;
  rewrite ?app_nil_r.

(** A step for another request leaves the task and the events of
    request [rid] as they are. *)
Lemma resume_frame (rid rid' : nat) (entropy : N) (w : World) :
  rid' <> rid ->
  tasks (resume rid' entropy w) !! rid = tasks w !! rid /\
  events_of rid (log (resume rid' entropy w)) = events_of rid (log w).
Proof.
  intros Hne.
  unfold resume. destruct (tasks w !! rid') as [t |]; [| done].
  destruct t.
  - destruct (update appt id (db w)) as [db' raised]. frame. done.
  - frame. done.
  - destruct (findByPk (param_id req) (db w)) as [err | [appointment |]]; frame; done.
  - frame. done.
  - destruct (due <=? clock w)%N; frame; done.
  - destruct (instance_update appointment updateData (db w)) as [[db' a'] raised].
    frame. done.
  - frame. done.
Qed.

Lemma step_frame (rid : nat) (i : Input) (w : World) :
  other rid i -> rid <> next_request w ->
  tasks (step i w) !! rid = tasks w !! rid /\
  events_of rid (log (step i w)) = events_of rid (log w).
Proof.
  intros Hother Hnew.
  destruct i as [ms | req | req | rid' entropy]; cbn [step other] in *.
  - done.
  - unfold bulkUpdateAppointments. destruct (get_prop "appointments" (body req)); frame; done.
  - unfold updateAppointmentAsync. frame. done.
  - apply resume_frame, Hother.
Qed.

Lemma step_next (i : Input) (w : World) : next_request w <= next_request (step i w).
Proof.
  destruct i as [ms | req | req | rid entropy]; cbn [step].
  - cbn. lia.
  - unfold bulkUpdateAppointments. destruct (get_prop "appointments" (body req)); cbn; lia.
  - cbn. lia.
  - unfold resume. destruct (tasks w !! rid) as [t |]; [| lia].
    destruct t; cbn; try lia.
    + destruct (update appt id (db w)) as [db' raised]. cbn. lia.
    + destruct (findByPk (param_id req) (db w)) as [err | [appointment |]]; cbn; lia.
    + destruct (due <=? clock w)%N; cbn; lia.
    + destruct (instance_update appointment updateData (db w)) as [[db' a'] raised]. cbn. lia.
Qed.

Lemma run_next (inputs : list Input) (w : World) : next_request w <= next_request (run inputs w).
Proof.
  revert w. induction inputs as [| i inputs IH]; intros w; [done |].
  rewrite run_cons. etrans; [apply (step_next i) | apply IH].
Qed.

(** A resumption of a request without a task does nothing. *)
Lemma resume_idle (rid : nat) (entropy : N) (w : World) :
  tasks w !! rid = None -> resume rid entropy w = w.
Proof. intros Hnone. unfold resume. rewrite Hnone. reflexivity. Qed.

Lemma run_frame (rid : nat) (inputs : list Input) (w : World) :
  Forall (other rid) inputs -> rid < next_request w ->
  tasks (run inputs w) !! rid = tasks w !! rid /\
  events_of rid (log (run inputs w)) = events_of rid (log w).
Proof.
  revert w. induction inputs as [| i inputs IH]; intros w Hother Hold; [done |].
  apply Forall_cons in Hother as [Hi Hother]. rewrite run_cons.
  destruct (step_frame rid i w Hi ltac:(lia)) as [Htasks Hevents].
  destruct (IH (step i w) Hother) as [Htasks' Hevents'].
  - pose proof (step_next i w). lia.
  - split; congruence.
Qed.

(** Once a request has no task left, nothing more happens for it. *)
Lemma step_finished (rid : nat) (i : Input) (w : World) :
  tasks w !! rid = None -> rid < next_request w ->
  tasks (step i w) !! rid = None /\
  events_of rid (log (step i w)) = events_of rid (log w).
Proof.
  intros Hnone Hold.
  assert (Hframe : other rid i ->
            tasks (step i w) !! rid = None /\
            events_of rid (log (step i w)) = events_of rid (log w)).
  { intros Hother.
    destruct (step_frame rid i w Hother ltac:(lia)) as [Htasks Hevents]. split; congruence. }
  destruct i as [ms | req | req | rid' entropy]; try (apply Hframe; exact I).
  destruct (decide (rid' = rid)) as [-> | Hne]; [| apply Hframe; exact Hne].
  cbn [step]. rewrite resume_idle by done. done.
Qed.

Lemma run_finished (rid : nat) (inputs : list Input) (w : World) :
  tasks w !! rid = None -> rid < next_request w ->
  tasks (run inputs w) !! rid = None /\
  events_of rid (log (run inputs w)) = events_of rid (log w).
Proof.
  revert w. induction inputs as [| i inputs IH]; intros w Hnone Hold; [done |].
  rewrite run_cons.
  destruct (step_finished rid i w Hnone Hold) as [Htasks Hevents].
  destruct (IH (step i w) Htasks) as [Htasks' Hevents'].
  - pose proof (step_next i w). lia.
  - split; congruence.
Qed.

(** ** Well-formed worlds *)

Lemma last_write_app (key : string) (l1 l2 : list Event) :
  last_write key (l1 ++ l2) =
    match last_write key l2 with
    | Some record => Some record
    | None => last_write key l1
    end.
Proof.
  induction l1 as [| ev l1 IH]; cbn [app last_write].
  - destruct (last_write key l2); reflexivity.
  - rewrite IH. destruct (last_write key l2); reflexivity.
Qed.

Lemma initial_wf (db0 : DB) (now : N) : wf (initial db0 now).
Proof. split; [done |]. intros key. apply lookup_empty. Qed.

Ltac tracked :=
  cbn [cache log emit suspend finish stored with_db accept advance]; unfold cache_set;
  rewrite ?last_write_app; cbn [last_write write_of];
  rewrite ?lookup_insert;
  repeat match goal with
  | |- context [String.eqb ?a ?b] => destruct (String.eqb_spec a b)
  end;
  repeat case_decide; try congruence.

Lemma step_tracked (i : Input) (w : World) :
  (forall key, cache w !! key = last_write key (log w)) ->
  forall key, cache (step i w) !! key = last_write key (log (step i w)).
Proof.
  intros Hcache key. specialize (Hcache key).
  destruct i as [ms | req | req | rid entropy]; cbn [step].
  - done.
  - unfold bulkUpdateAppointments. destruct (get_prop "appointments" (body req)); tracked.
  - done.
  - unfold resume. destruct (tasks w !! rid) as [t |]; [| done].
    destruct t.
    + destruct (update appt id (db w)) as [db' raised]. tracked.
    + tracked.
    + destruct (findByPk (param_id req) (db w)) as [err | [appointment |]]; tracked.
    + tracked.
    + destruct (due <=? clock w)%N; tracked.
    + destruct (instance_update appointment updateData (db w)) as [[db' a'] raised]. tracked.
    + tracked.
Qed.

Lemma step_wf (i : Input) (w : World) : wf w -> wf (step i w).
Proof.
  intros [Hfresh Hcache]. split; [| apply step_tracked, Hcache].
  intros rid Hrid. pose proof (step_next i w) as Hnext.
  destruct (Hfresh rid ltac:(lia)) as [Hnone Hevents].
  destruct i as [ms | req | req | rid' entropy].
  - done.
  - assert (Hnew : rid <> next_request w).
    { cbn [step] in Hrid. unfold bulkUpdateAppointments in Hrid.
      destruct (get_prop "appointments" (body req)); cbn in Hrid; lia. }
    destruct (step_frame rid (BulkRequest req) w I Hnew) as [-> ->]. done.
  - assert (Hnew : rid <> next_request w) by (cbn in Hrid; lia).
    destruct (step_frame rid (AsyncRequest req) w I Hnew) as [-> ->]. done.
  - cbn [step]. destruct (decide (rid' = rid)) as [-> | Hne].
    + rewrite resume_idle by done. done.
    + destruct (resume_frame rid rid' entropy w Hne) as [-> ->]. done.
Qed.

Lemma run_wf (inputs : list Input) (w : World) : wf w -> wf (run inputs w).
Proof.
  revert w. induction inputs as [| i inputs IH]; intros w Hwf; [done |].
  rewrite run_cons. apply IH, step_wf, Hwf.
Qed.

(** ** The bulk job *)

Section BulkJob.
Variables (rid : nat) (jobId : string) (appointments : option Json).

Local Abbreviation state := (bulk_state rid jobId appointments).
Local Abbreviation head := (Responded rid (bulk_response jobId)).

Lemma updated_ok (x : Json) (id : option Json) :
  get_prop "id" x = inr id -> ModelUpdated rid x id None = updated rid x.
Proof. intros Hid. unfold updated, id_of. rewrite Hid. reflexivity. Qed.

(** The loop head after the items [pre] went through. *)
Lemma bulk_next_state (pre rest : list Json) :
  iterate "appointments" appointments = inr (pre ++ rest) ->
  state (Some (bulk_next jobId rest)) (head :: List.map (updated rid) pre) /\
  bulk_left (Some (bulk_next jobId rest)) <= S (length rest).
Proof.
  intros Hitems. destruct rest as [| x rest]; cbn [bulk_next].
  - rewrite app_nil_r in Hitems. split; [| cbn; lia].
    split; [reflexivity |]. eexists. split; [apply AllUpdated, Hitems | reflexivity].
  - destruct (get_prop "id" x) as [e | id] eqn:Hid.
    + split; [| cbn; lia]. split; [reflexivity |].
      eexists. split; [eapply ItemUnreadable; eassumption | reflexivity].
    + split; [| cbn; lia]. split; [reflexivity |]. split; [exact Hid |]. eauto.
Qed.

Lemma bulk_start_state :
  state (Some (bulk_start jobId appointments)) [head] /\
  bulk_left (Some (bulk_start jobId appointments)) <= bulk_work appointments.
Proof.
  unfold bulk_start, bulk_work.
  destruct (iterate "appointments" appointments) as [e | items] eqn:Hitems.
  - split; [| cbn; lia]. split; [reflexivity |].
    exists []. split; [apply NotIterable, Hitems | reflexivity].
  - apply (bulk_next_state [] items Hitems).
Qed.

(** One resumption of the job. *)
Lemma bulk_resume (entropy : N) (w : World) :
  state (tasks w !! rid) (events_of rid (log w)) ->
  state (tasks (resume rid entropy w) !! rid) (events_of rid (log (resume rid entropy w))) /\
  bulk_left (tasks (resume rid entropy w) !! rid) <= bulk_left (tasks w !! rid) - 1.
Proof.
  intros Hstate. unfold resume.
  destruct (tasks w !! rid) as [t |] eqn:Htask; [| rewrite Htask; split; [done | cbn; lia]].
  destruct t; cbn [bulk_state] in Hstate; try contradiction.
  - destruct Hstate as (-> & Hid & pre & Hitems & Hevents).
    destruct (update appt id (db w)) as [db' raised].
    cbn [tasks log emit suspend with_db]. rewrite lookup_insert_eq, events_of_app, Hevents.
    rewrite (events_of_own rid) by reflexivity.
    destruct raised as [e |].
    + split; [| cbn; lia]. split; [reflexivity |].
      eexists. split; [eapply UpdateRaised; eassumption | reflexivity].
    + rewrite (updated_ok _ _ Hid).
      replace (pre ++ appt :: rest) with ((pre ++ [appt]) ++ rest) in Hitems
        by (rewrite <- app_assoc; reflexivity).
      destruct (bulk_next_state (pre ++ [appt]) rest Hitems) as [Hnext Hleft].
      rewrite List.map_app in Hnext.
      split; [exact Hnext | etrans; [exact Hleft | cbn; lia]].
  - destruct Hstate as (-> & updates & Houtcome & Hevents).
    cbn [tasks log emit finish stored]. rewrite lookup_delete_eq, events_of_app, Hevents.
    rewrite (events_of_own rid) by reflexivity.
    split; [| cbn; lia]. exists updates, record. done.
Qed.

Lemma bulk_step (i : Input) (w : World) :
  rid < next_request w ->
  state (tasks w !! rid) (events_of rid (log w)) ->
  state (tasks (step i w) !! rid) (events_of rid (log (step i w))) /\
  bulk_left (tasks (step i w) !! rid) <= bulk_left (tasks w !! rid) - resumes rid [i].
Proof.
  intros Hold Hstate.
  assert (Hframe : other rid i -> resumes rid [i] = 0 ->
            state (tasks (step i w) !! rid) (events_of rid (log (step i w))) /\
            bulk_left (tasks (step i w) !! rid) <= bulk_left (tasks w !! rid) - resumes rid [i]).
  { intros Hother ->. destruct (step_frame rid i w Hother ltac:(lia)) as [-> ->].
    split; [done | lia]. }
  destruct i as [ms | req | req | rid' entropy]; try (apply Hframe; [exact I | reflexivity]).
  destruct (decide (rid' = rid)) as [-> | Hne].
  - cbn [step resumes List.filter length]. rewrite Nat.eqb_refl. apply bulk_resume, Hstate.
  - apply Hframe; [exact Hne |]. cbn. destruct (Nat.eqb_spec rid' rid); [contradiction | done].
Qed.

Lemma resumes_cons (i : Input) (inputs : list Input) :
  resumes rid (i :: inputs) = resumes rid [i] + resumes rid inputs.
Proof.
  unfold resumes. cbn [List.filter].
  destruct i as [ms | req | req | rid' entropy]; try reflexivity.
  destruct (Nat.eqb rid' rid); reflexivity.
Qed.

Lemma bulk_run (inputs : list Input) (w : World) :
  rid < next_request w ->
  state (tasks w !! rid) (events_of rid (log w)) ->
  state (tasks (run inputs w) !! rid) (events_of rid (log (run inputs w))) /\
  bulk_left (tasks (run inputs w) !! rid) <= bulk_left (tasks w !! rid) - resumes rid inputs.
Proof.
  revert w. induction inputs as [| i inputs IH]; intros w Hold Hstate.
  - split; [done | cbn; lia].
  - rewrite run_cons, resumes_cons.
    destruct (bulk_step i w Hold Hstate) as [Hstate' Hleft].
    destruct (IH (step i w)) as [Hstate'' Hleft'].
    + pose proof (step_next i w). lia.
    + exact Hstate'.
    + split; [exact Hstate'' | lia].
Qed.

End BulkJob.

(** The job a bulk request starts, after any schedule. *)
Lemma bulk_request_run (w : World) (req : Request) (appointments : option Json)
    (inputs : list Input) :
  wf w ->
  get_prop "appointments" (body req) = inr appointments ->
  let rid := next_request w in
  let w' := run inputs (step (BulkRequest req) w) in
  bulk_state rid (timestamp_id (clock w)) appointments
             (tasks w' !! rid) (events_of rid (log w')) /\
  bulk_left (tasks w' !! rid) <= bulk_work appointments - resumes rid inputs.
Proof.
  intros [Hfresh _] Hbody rid w'.
  destruct (Hfresh rid ltac:(lia)) as [_ Hnone].
  destruct (bulk_start_state rid (timestamp_id (clock w)) appointments) as [Hstart Hwork].
  destruct (bulk_run rid (timestamp_id (clock w)) appointments inputs
              (step (BulkRequest req) w)) as [Hstate Hleft].
  - cbn [step]. unfold bulkUpdateAppointments. rewrite Hbody. cbn. lia.
  - cbn [step]. unfold bulkUpdateAppointments. rewrite Hbody.
    cbn [tasks log emit suspend accept]. rewrite lookup_insert_eq, events_of_app.
    fold rid. rewrite Hnone, (events_of_own rid) by reflexivity. exact Hstart.
  - split; [exact Hstate |].
    assert (Htask : tasks (step (BulkRequest req) w) !! rid
                    = Some (bulk_start (timestamp_id (clock w)) appointments)).
    { cbn [step]. unfold bulkUpdateAppointments. rewrite Hbody.
      cbn [tasks emit suspend accept]. apply lookup_insert_eq. }
    rewrite Htask in Hleft. fold w' in Hleft. lia.
Qed.


Lemma model_updates_events_of (rid : nat) (evs : list Event) :
  model_updates rid (events_of rid evs) = model_updates rid evs.
Proof.
  induction evs as [| ev evs IH]; [reflexivity |].
  cbn [events_of List.filter]. fold (events_of rid evs).
  change (model_updates rid (ev :: evs)) with (model_update_of rid ev ++ model_updates rid evs).
  destruct (Nat.eqb_spec (request_of ev) rid) as [Heq | Hne].
  - change (model_updates rid (ev :: events_of rid evs))
      with (model_update_of rid ev ++ model_updates rid (events_of rid evs)).
    rewrite IH. reflexivity.
  - rewrite IH. destruct ev; try reflexivity.
    cbn in Hne |- *. destruct (Nat.eqb_spec rid0 rid); [contradiction | reflexivity].
Qed.


Lemma In_events_of (rid : nat) (ev : Event) (evs : list Event) :
  In ev evs -> request_of ev = rid -> In ev (events_of rid evs).
Proof. intros Hin Hrid. apply filter_In. split; [exact Hin |]. rewrite Hrid. apply Nat.eqb_refl. Qed.



Lemma not_raised_in_updated (rid : nat) (x : Json) (id : option Json) (e : JsError)
    (items : list Json) :
  ~ In (ModelUpdated rid x id (Some e)) (List.map (updated rid) items).
Proof. intros Hin. apply in_map_iff in Hin as (y & Hy & _). discriminate Hy. Qed.


(** C3: when an update of an accepted bulk request has raised and its
    task is over, the events of the request are, in this order: the 202
    response, one successful update for each item before the failing
    one, in list order, the update that raised, and the write of
    {status: failed, error: message of that error} under the jobId;
    no update is made for the items after it and none is undone: the
    store is what the logged model calls make of it. *)
Theorem bulk_job_stops_at_first_error (w : World) (req : Request)
    (appointments : option Json) (inputs : list Input)
    (x : Json) (id : option Json) (e : JsError) :
  wf w ->
  get_prop "appointments" (body req) = inr appointments ->
  let rid := next_request w in
  let jobId := timestamp_id (clock w) in
  let w0 := step (BulkRequest req) w in
  let w' := run inputs w0 in
  tasks w' !! rid = None ->
  In (ModelUpdated rid x id (Some e)) (log w') ->
  exists pre post evs,
    iterate "appointments" appointments = inr (pre ++ x :: post) /\
    events_of rid (log w') =
      Responded rid (bulk_response jobId) :: List.map (updated rid) pre ++
      [ModelUpdated rid x id (Some e);
       CacheSet rid jobId (mkRecord failed None None None None None (Some (err_message e)))] /\
    log w' = log w0 ++ evs /\ db w' = replay evs (db w0).
Proof.
  intros Hwf Hbody rid jobId w0 w' Hdone Hin.
  destruct (bulk_request_run w req appointments inputs Hwf Hbody) as [Hstate _].
  fold rid jobId w0 w' in Hstate.
  rewrite Hdone in Hstate. cbn [bulk_state] in Hstate.
  destruct Hstate as (updates & record & Houtcome & Hevents).
  destruct (run_log inputs w0) as (evs & Hlog & Hdb). fold w' in Hlog, Hdb.
  apply (In_events_of rid) in Hin; [| reflexivity].
  rewrite Hevents in Hin. destruct Hin as [Hin | Hin]; [discriminate Hin |].
  apply in_app_or in Hin as [Hin | [Hin | []]]; [| discriminate Hin].
  destruct Houtcome as [items' Hit | pre post x' id' e' Hit Hid | pre post x' e' Hit Hid | e' Hit].
  - apply not_raised_in_updated in Hin. contradiction.
  - apply in_app_or in Hin as [Hin | [Hin | []]].
    + apply not_raised_in_updated in Hin. contradiction.
    + injection Hin as -> -> ->. exists pre, post, evs.
      split; [exact Hit |]. split; [| done].
      rewrite Hevents, <- app_assoc. reflexivity.
  - apply not_raised_in_updated in Hin. contradiction.
  - destruct Hin.
Qed.

(** ** The single-resource operation *)

Lemma randomUUID_length (entropy : N) : String.length (randomUUID entropy) = 36.
Proof. reflexivity. Qed.

(** An asynchronous update request up to the answer of [findByPk]. *)
Lemma async_request_find (w : World) (req : Request) (inputs : list Input) :
  wf w ->
  let rid := next_request w in
  Forall (other rid) inputs ->
  let w1 := run inputs (step (AsyncRequest req) w) in
  tasks w1 !! rid = Some (AsyncFind req) /\
  events_of rid (log w1) = [] /\
  rid < next_request w1.
Proof.
  intros [Hfresh _] rid Hother w1.
  destruct (Hfresh rid ltac:(lia)) as [_ Hnone].
  destruct (run_frame rid inputs (step (AsyncRequest req) w) Hother) as [Htasks Hevents].
  { cbn. lia. }
  fold w1 in Htasks, Hevents. rewrite Htasks, Hevents.
  split; [apply lookup_insert_eq |]. split; [exact Hnone |].
  pose proof (run_next inputs (step (AsyncRequest req) w)) as Hnext.
  fold w1 in Hnext. cbn in Hnext. lia.
Qed.

(** C1: when [findByPk] finds the appointment, the request has, up to
    and including its answer, exactly two events: the write of the
    processing record, with the request payload, under a fresh
    operationId, then the response 202 whose Location header is the
    status URL and whose body carries that URL and the operationId,
    which is not empty.  The record is in the tracker, the update of the
    appointment waits behind the 5000 ms timer, and whatever comes later
    for the request comes after these two events. *)
Theorem async_update_accepted (w : World) (req : Request) (appointment : Instance)
    (inputs1 inputs2 : list Input) (entropy1 entropy2 : N) :
  wf w ->
  let rid := next_request w in
  Forall (other rid) inputs1 ->
  Forall (other rid) inputs2 ->
  let w1 := run inputs1 (step (AsyncRequest req) w) in
  findByPk (param_id req) (db w1) = inr (Some appointment) ->
  let w2 := run inputs2 (step (Resume rid entropy1) w1) in
  let w3 := step (Resume rid entropy2) w2 in
  let operationId := randomUUID entropy1 in
  let baseUrl := protocol req +:+ "://" +:+ host req in
  let statusUrl := baseUrl +:+ "/operations/" +:+ operationId in
  let record :=
    mkRecord processing (Some "appointment") (Some (JStr (param_id req))) (Some "update")
             (Some (body req)) None None in
  let accepted :=
    [CacheSet rid operationId record;
     Responded rid
       (mkRes 202 [("Location", statusUrl)]
              (Some (AcceptedBody "Update request accepted" statusUrl (Some operationId))))] in
  events_of rid (log w3) = accepted /\
  operationId <> EmptyString /\
  cache w3 !! operationId = Some record /\
  tasks w3 !! rid = Some (ProcessTimer operationId appointment (body req) (clock w2 + 5000)%N) /\
  forall inputs3, exists later, events_of rid (log (run inputs3 w3)) = accepted ++ later.
Proof.
  intros Hwf rid Hother1 Hother2 w1 Hfind w2 w3 operationId baseUrl statusUrl record accepted.
  destruct (async_request_find w req inputs1 Hwf Hother1) as (Htask1 & Hevents1 & Hold1).
  fold rid w1 in Htask1, Hevents1, Hold1.
  assert (Hstep : step (Resume rid entropy1) w1
                  = suspend rid (AsyncSet req appointment operationId statusUrl) w1).
  { cbn [step]. unfold resume. rewrite Htask1, Hfind. reflexivity. }
  destruct (run_frame rid inputs2 (step (Resume rid entropy1) w1) Hother2)
    as [Htask2 Hevents2].
  { rewrite Hstep. exact Hold1. }
  fold w2 in Htask2, Hevents2. rewrite Hstep in Htask2, Hevents2.
  cbn [tasks log suspend] in Htask2, Hevents2. rewrite lookup_insert_eq in Htask2.
  assert (Hw3 : w3 = emit accepted
                  (suspend rid (ProcessTimer operationId appointment (body req)
                                             (clock w2 + 5000)%N)
                     (stored operationId record w2))).
  { subst w3. cbn [step]. unfold resume. rewrite Htask2. reflexivity. }
  assert (Hevents3 : events_of rid (log w3) = accepted).
  { rewrite Hw3. cbn [log emit suspend stored].
    rewrite events_of_app, Hevents2, Hevents1. cbn. rewrite Nat.eqb_refl. reflexivity. }
  split; [exact Hevents3 |]. split; [| split; [| split]].
  - intros Hempty. apply (f_equal String.length) in Hempty.
    unfold operationId in Hempty. rewrite randomUUID_length in Hempty. discriminate Hempty.
  - rewrite Hw3. cbn [cache emit suspend stored]. apply lookup_insert_eq.
  - rewrite Hw3. cbn [tasks emit suspend stored]. apply lookup_insert_eq.
  - intros inputs3. destruct (run_log inputs3 w3) as (evs & Hlog & _).
    exists (events_of rid evs). rewrite Hlog, events_of_app, Hevents3. reflexivity.
Qed.

(** C5: when [findByPk] finds no appointment, the request is answered
    404 with the not-found message, the tracker is left as it was, and
    whatever the server does afterwards, that response stays the only
    event of the request: no record is ever written for it. *)
Theorem async_update_missing (w : World) (req : Request)
    (inputs1 inputs2 : list Input) (entropy : N) :
  wf w ->
  let rid := next_request w in
  Forall (other rid) inputs1 ->
  let w1 := run inputs1 (step (AsyncRequest req) w) in
  findByPk (param_id req) (db w1) = inr None ->
  let w2 := step (Resume rid entropy) w1 in
  let w3 := run inputs2 w2 in
  events_of rid (log w3) =
    [Responded rid (mkRes 404 [] (Some (MessageBody "Appointment not found")))] /\
  cache w2 = cache w1 /\
  tasks w3 !! rid = None /\
  forall key record, ~ In (CacheSet rid key record) (log w3).
Proof.
  intros Hwf rid Hother w1 Hfind w2 w3.
  destruct (async_request_find w req inputs1 Hwf Hother) as (Htask1 & Hevents1 & Hold1).
  fold rid w1 in Htask1, Hevents1, Hold1.
  assert (Hw2 : w2 = emit [Responded rid not_found_response] (finish rid w1)).
  { subst w2. cbn [step]. unfold resume. rewrite Htask1, Hfind. reflexivity. }
  destruct (run_finished rid inputs2 w2) as [Htask3 Hevents3].
  { rewrite Hw2. cbn [tasks emit finish]. apply lookup_delete_eq. }
  { rewrite Hw2. exact Hold1. }
  fold w3 in Htask3, Hevents3.
  assert (Hevents : events_of rid (log w3) = [Responded rid not_found_response]).
  { rewrite Hevents3, Hw2. cbn [log emit finish].
    rewrite events_of_app, Hevents1. cbn. rewrite Nat.eqb_refl. reflexivity. }
  split; [exact Hevents |]. split; [rewrite Hw2; reflexivity |]. split; [exact Htask3 |].
  intros key record Hin.
  apply (In_events_of rid) in Hin; [| reflexivity].
  rewrite Hevents in Hin. destruct Hin as [Hin | []]. discriminate Hin.
Qed.


(** ** The life of a record *)

(** What holds of the task and the events of a request and survives its
    own resumptions survives every schedule. *)
Lemma run_preserves (rid : nat) (P : option Task -> list Event -> Prop) :
  (forall entropy w,
     P (tasks w !! rid) (events_of rid (log w)) ->
     P (tasks (resume rid entropy w) !! rid) (events_of rid (log (resume rid entropy w)))) ->
  forall inputs w,
    rid < next_request w ->
    P (tasks w !! rid) (events_of rid (log w)) ->
    P (tasks (run inputs w) !! rid) (events_of rid (log (run inputs w))).
Proof.
  intros Hresume inputs. induction inputs as [| i inputs IH]; intros w Hold HP; [exact HP |].
  rewrite run_cons. apply IH; [pose proof (step_next i w); lia |].
  assert (Hframe : other rid i ->
            P (tasks (step i w) !! rid) (events_of rid (log (step i w)))).
  { intros Hother. destruct (step_frame rid i w Hother ltac:(lia)) as [-> ->]. exact HP. }
  destruct i as [ms | req | req | rid' entropy]; try (apply Hframe; exact I).
  destruct (decide (rid' = rid)) as [-> | Hne]; [| apply Hframe; exact Hne].
  apply Hresume, HP.
Qed.

Lemma async_resume (rid : nat) (req : Request) (entropy : N) (w : World) :
  async_state rid req (tasks w !! rid) (events_of rid (log w)) ->
  async_state rid req (tasks (resume rid entropy w) !! rid)
              (events_of rid (log (resume rid entropy w))).
Proof.
  intros Hstate. unfold resume.
  destruct (tasks w !! rid) as [t |] eqn:Htask; [| rewrite Htask; exact Hstate].
  destruct t; cbn [async_state] in Hstate; try contradiction.
  - destruct Hstate as [-> Hevents].
    destruct (findByPk (param_id req) (db w)) as [err | [appointment |]];
      cbn [tasks log emit suspend finish];
      rewrite ?lookup_insert_eq, ?lookup_delete_eq, ?events_of_app, ?Hevents;
      rewrite ?(events_of_own rid) by reflexivity; cbn [async_state app]; eauto.
  - destruct Hstate as (-> & -> & Hevents).
    cbn [tasks log emit suspend stored]. rewrite lookup_insert_eq, events_of_app, Hevents.
    cbn. rewrite Nat.eqb_refl. done.
  - destruct Hstate as [-> Hevents].
    destruct (due <=? clock w)%N; cbn [tasks log suspend];
      rewrite ?lookup_insert_eq, ?Htask; done.
  - destruct Hstate as [-> Hevents].
    destruct (instance_update appointment (body req) (db w)) as [[db' a'] raised].
    cbn [tasks log emit suspend with_db]. rewrite lookup_insert_eq, events_of_app, Hevents.
    rewrite (events_of_own rid) by reflexivity. cbn [async_state]. eauto.
  - destruct Hstate as (a & a' & raised & -> & Hevents).
    cbn [tasks log emit finish stored]. rewrite lookup_delete_eq, events_of_app, Hevents.
    rewrite (events_of_own rid) by reflexivity. cbn [async_state].
    right. right. exists operationId, a, a', raised. rewrite <- app_assoc. reflexivity.
Qed.

(** The operation an asynchronous update request starts, after any
    schedule. *)
Lemma async_request_run (w : World) (req : Request) (inputs : list Input) :
  wf w ->
  let rid := next_request w in
  let w' := run inputs (step (AsyncRequest req) w) in
  async_state rid req (tasks w' !! rid) (events_of rid (log w')).
Proof.
  intros [Hfresh _] rid w'.
  destruct (Hfresh rid ltac:(lia)) as [_ Hnone].
  apply (run_preserves rid (async_state rid req) (async_resume rid req)).
  - cbn. lia.
  - cbn [step tasks log updateAppointmentAsync suspend accept].
    rewrite lookup_insert_eq. cbn [async_state]. done.
Qed.

Lemma records_of_app (rid : nat) (l1 l2 : list Event) :
  records_of rid (l1 ++ l2) = records_of rid l1 ++ records_of rid l2.
Proof. apply flat_map_app. Qed.

Lemma records_of_cons (rid : nat) (ev : Event) (evs : list Event) :
  records_of rid (ev :: evs) = record_of rid ev ++ records_of rid evs.
Proof. reflexivity. Qed.

Lemma records_of_events_of (rid : nat) (evs : list Event) :
  records_of rid (events_of rid evs) = records_of rid evs.
Proof.
  induction evs as [| ev evs IH]; [reflexivity |].
  cbn [events_of List.filter]. fold (events_of rid evs).
  change (records_of rid (ev :: evs)) with (record_of rid ev ++ records_of rid evs).
  destruct (Nat.eqb_spec (request_of ev) rid) as [Heq | Hne].
  - change (records_of rid (ev :: events_of rid evs))
      with (record_of rid ev ++ records_of rid (events_of rid evs)).
    rewrite IH. reflexivity.
  - rewrite IH. destruct ev; try reflexivity.
    cbn in Hne |- *. destruct (Nat.eqb_spec rid0 rid); [contradiction | reflexivity].
Qed.

Lemma records_of_updated (rid : nat) (items : list Json) :
  records_of rid (List.map (updated rid) items) = [].
Proof. induction items as [| x items IH]; [reflexivity | exact IH]. Qed.

Lemma op_outcome_terminal (a : Instance) (raised : option JsError) :
  terminal (op_outcome a raised).
Proof. destruct raised; cbn; [right | left]; reflexivity. Qed.

Lemma bulk_outcome_records (rid : nat) (appointments : option Json)
    (updates : list Event) (record : OpRecord) :
  BulkOutcome rid appointments updates record ->
  records_of rid updates = [] /\ terminal record.
Proof.
  intros Houtcome. destruct Houtcome;
    rewrite ?records_of_app, ?records_of_updated; cbn; unfold terminal; cbn; tauto.
Qed.

Lemma sets_of_updated (rid : nat) (items : list Json) :
  List.filter is_set (List.map (updated rid) items) = [].
Proof. induction items as [| x items IH]; [reflexivity | exact IH]. Qed.

Lemma bulk_outcome_sets (rid : nat) (appointments : option Json)
    (updates : list Event) (record : OpRecord) :
  BulkOutcome rid appointments updates record ->
  List.filter is_set updates = [] /\
  (record = mkRecord completed None None None None None None \/
   exists message, record = mkRecord failed None None None None None (Some message)).
Proof.
  intros Houtcome. destruct Houtcome;
    rewrite ?List.filter_app, ?sets_of_updated; (split; [reflexivity |]);
    solve [left; reflexivity | right; eexists; reflexivity].
Qed.

(** X17: whatever the schedule, the tracker writes of a bulk request are
    these and no others.  While its task is suspended, and for a request
    refused for its null body, there is none.  Once the task is over
    there is exactly one, under the job id of the answer, and its record
    is {status: completed} or {status: failed, error: message} with no
    other field. *)
Lemma bulk_request_writes_once (w : World) (req : Request) (inputs : list Input) :
  wf w ->
  let rid := next_request w in
  let w' := run inputs (step (BulkRequest req) w) in
  let jobId := timestamp_id (clock w) in
  match tasks w' !! rid, get_prop "appointments" (body req) with
  | None, inr _ =>
      sets_of rid (log w')
        = [CacheSet rid jobId (mkRecord completed None None None None None None)] \/
      exists message,
        sets_of rid (log w')
          = [CacheSet rid jobId (mkRecord failed None None None None None (Some message))]
  | _, _ => sets_of rid (log w') = []
  end.
Proof.
  intros Hwf rid w' jobId. subst w' jobId. unfold sets_of.
  destruct (get_prop "appointments" (body req)) as [e | appointments] eqn:Hbody.
  - assert (Hstep : step (BulkRequest req) w = accept w)
      by (cbn [step]; unfold bulkUpdateAppointments; rewrite Hbody; reflexivity).
    destruct Hwf as [Hfresh _]. destruct (Hfresh rid ltac:(lia)) as [Hnone Hevents].
    destruct (run_finished rid inputs (step (BulkRequest req) w)) as [_ Hsame].
    { rewrite Hstep. exact Hnone. }
    { rewrite Hstep. cbn. lia. }
    rewrite Hsame, Hstep. cbn [log accept]. rewrite Hevents.
    match goal with |- match ?t with _ => _ end => destruct t end; reflexivity.
  - destruct (bulk_request_run w req appointments inputs Hwf Hbody) as [Hstate _].
    fold rid in Hstate.
    destruct (tasks (run inputs (step (BulkRequest req) w)) !! rid) as [t |].
    + destruct t; cbn [bulk_state] in Hstate; try contradiction; cbv beta iota.
      * destruct Hstate as (_ & _ & pre & _ & ->).
        cbn [List.filter is_set]. apply sets_of_updated.
      * destruct Hstate as (_ & updates & Houtcome & ->).
        apply bulk_outcome_sets in Houtcome as [Hnone _].
        cbn [List.filter is_set]. exact Hnone.
    + cbv beta iota. destruct Hstate as (updates & record & Houtcome & ->).
      apply bulk_outcome_sets in Houtcome as [Hnone Hrecord].
      cbn [List.filter is_set]. rewrite List.filter_app, Hnone. cbn [List.filter is_set app].
      destruct Hrecord as [-> | [message ->]]; [left | right; exists message]; reflexivity.
Qed.

(** X18: whatever the schedule, the tracker writes of an asynchronous
    update request are these and no others.  Before the first write has
    been made there is none.  From then on, while a task of the request is
    suspended, there is exactly one: the record {status: processing,
    resourceType: appointment, resourceId: the id of the URL, operation:
    update, data: the body of the request} under the operation id.  Once
    the request is over there is either none, and then the request has
    been answered with another status than 202, or two under the same
    operation id: that processing record first, then one record that is
    completed with the appointment as result, or failed with a message. *)
Lemma async_request_writes_once (w : World) (req : Request) (inputs : list Input) :
  wf w ->
  let rid := next_request w in
  let w' := run inputs (step (AsyncRequest req) w) in
  let pending operationId :=
    CacheSet rid operationId
      (mkRecord processing (Some "appointment") (Some (JStr (param_id req))) (Some "update")
                (Some (body req)) None None) in
  match tasks w' !! rid with
  | Some (AsyncFind _) | Some (AsyncSet _ _ _ _) => sets_of rid (log w') = []
  | Some _ => exists operationId, sets_of rid (log w') = [pending operationId]
  | None =>
      (sets_of rid (log w') = [] /\
       exists answer, events_of rid (log w') = [Responded rid answer] /\
                      statusCode answer <> 202%Z) \/
      exists operationId appointment,
        sets_of rid (log w')
          = [pending operationId;
             CacheSet rid operationId
               (mkRecord completed (Some "appointment") (attr "id" appointment)
                         (Some "update") None (Some appointment) None)] \/
        exists message,
          sets_of rid (log w')
            = [pending operationId;
               CacheSet rid operationId
                 (mkRecord failed (Some "appointment") (attr "id" appointment)
                           (Some "update") None None (Some message))]
  end.
Proof.
  intros Hwf rid w' pending. subst w' pending. unfold sets_of.
  pose proof (async_request_run w req inputs Hwf) as Hstate. fold rid in Hstate.
  cbn zeta in Hstate.
  destruct (tasks (run inputs (step (AsyncRequest req) w)) !! rid) as [t |].
  - destruct t; cbn [async_state] in Hstate; try contradiction; cbv beta iota.
    + destruct Hstate as [_ ->]. reflexivity.
    + destruct Hstate as (_ & _ & ->). reflexivity.
    + destruct Hstate as [_ ->]. eexists. reflexivity.
    + destruct Hstate as [_ ->]. eexists. reflexivity.
    + destruct Hstate as (a & a' & raised & _ & ->). eexists. reflexivity.
  - cbv beta iota. destruct Hstate as [[err ->] | [-> | (operationId & a & a' & raised & ->)]].
    + left. split; [reflexivity |]. eexists. split; [reflexivity |]. cbn. lia.
    + left. split; [reflexivity |]. eexists. split; [reflexivity |]. cbn. lia.
    + right. exists operationId, a'.
      destruct raised as [e |]; [right; exists (err_message e) | left]; reflexivity.
Qed.

(** ** Identifiers *)

(** C6: two bulk requests that arrive without a clock tick in between
    are both accepted under the same jobId, the text of that clock
    reading, where the claim has the identifiers of two distinct
    requests differ. *)
Theorem same_tick_same_job_id (w : World) (req1 req2 : Request) (a1 a2 : option Json) :
  get_prop "appointments" (body req1) = inr a1 ->
  get_prop "appointments" (body req2) = inr a2 ->
  let w2 := step (BulkRequest req2) (step (BulkRequest req1) w) in
  let jobId := timestamp_id (clock w) in
  log w2 = log w ++ [Responded (next_request w) (bulk_response jobId);
                     Responded (S (next_request w)) (bulk_response jobId)].
Proof.
  intros Hbody1 Hbody2. cbn [step]. unfold bulkUpdateAppointments.
  rewrite Hbody1. cbn [body clock next_request suspend emit accept log].
  rewrite Hbody2. cbn [log emit suspend accept]. rewrite <- app_assoc. reflexivity.
Qed.

(** ** Further properties of the bulk job *)

Lemma responses_updated (rid : nat) (items : list Json) :
  List.filter is_response (List.map (updated rid) items) = [].
Proof. induction items as [| x items IH]; [reflexivity | exact IH]. Qed.

Lemma bulk_outcome_no_response (rid : nat) (appointments : option Json)
    (updates : list Event) (record : OpRecord) :
  BulkOutcome rid appointments updates record -> List.filter is_response updates = [].
Proof.
  intros Houtcome. destruct Houtcome;
    rewrite ?List.filter_app, ?responses_updated; reflexivity.
Qed.

(** X9: an accepted bulk request is answered first and once: whatever
    the schedule, the first event of the request is the response 202 with
    the message 'Update job accepted' and the status URL
    /appointments/jobs/jobId, so it precedes every update of the job, and
    no other response follows. *)
Theorem bulk_answered_first_and_once (w : World) (req : Request)
    (appointments : option Json) (inputs : list Input) :
  wf w ->
  get_prop "appointments" (body req) = inr appointments ->
  let rid := next_request w in
  let w' := run inputs (step (BulkRequest req) w) in
  let answer :=
    Responded rid
      (mkRes 202 []
         (Some (AcceptedBody "Update job accepted"
                             ("/appointments/jobs/" +:+ timestamp_id (clock w)) None))) in
  exists rest,
    events_of rid (log w') = answer :: rest /\ List.filter is_response rest = [].
Proof.
  intros Hwf Hbody rid w' answer.
  destruct (bulk_request_run w req appointments inputs Hwf Hbody) as [Hstate _].
  fold rid w' in Hstate.
  destruct (tasks w' !! rid) as [t |].
  - destruct t; cbn [bulk_state] in Hstate; try contradiction.
    + destruct Hstate as (_ & _ & pre & _ & ->).
      eexists. split; [reflexivity | apply responses_updated].
    + destruct Hstate as (_ & updates & Houtcome & ->).
      eexists. split; [reflexivity | eapply bulk_outcome_no_response, Houtcome].
  - destruct Hstate as (updates & record & Houtcome & ->).
    eexists. split; [reflexivity |].
    rewrite List.filter_app, (bulk_outcome_no_response _ _ _ _ Houtcome). reflexivity.
Qed.

Lemma records_of_In (rid : nat) (key : string) (record : OpRecord) (evs : list Event) :
  In (CacheSet rid key record) evs -> In record (records_of rid evs).
Proof.
  intros Hin. apply in_flat_map. eexists. split; [exact Hin |].
  cbn. rewrite Nat.eqb_refl. left. reflexivity.
Qed.

(** X10: a bulk job that has written {status: completed} has updated
    every item of the submitted list, once and in list order, without an
    error: its events are the response, these updates and the write. *)
Theorem bulk_completed_means_all_updated (w : World) (req : Request)
    (appointments : option Json) (inputs : list Input) :
  wf w ->
  get_prop "appointments" (body req) = inr appointments ->
  let rid := next_request w in
  let jobId := timestamp_id (clock w) in
  let w' := run inputs (step (BulkRequest req) w) in
  In (CacheSet rid jobId job_completed) (log w') ->
  exists items,
    iterate "appointments" appointments = inr items /\
    events_of rid (log w') =
      Responded rid (bulk_response jobId) :: List.map (updated rid) items ++
      [CacheSet rid jobId job_completed].
Proof.
  intros Hwf Hbody rid jobId w' Hin.
  destruct (bulk_request_run w req appointments inputs Hwf Hbody) as [Hstate _].
  fold rid jobId w' in Hstate.
  apply (In_events_of rid) in Hin; [| reflexivity].
  destruct (tasks w' !! rid) as [t |].
  - exfalso. apply records_of_In in Hin.
    destruct t; cbn [bulk_state] in Hstate; try contradiction.
    + destruct Hstate as (_ & _ & pre & _ & Hevents). rewrite Hevents in Hin.
      rewrite records_of_cons, records_of_updated in Hin. destruct Hin.
    + destruct Hstate as (_ & updates & Houtcome & Hevents). rewrite Hevents in Hin.
      apply bulk_outcome_records in Houtcome as [Hnone _].
      rewrite records_of_cons, Hnone in Hin. destruct Hin.
  - destruct Hstate as (updates & record & Houtcome & Hevents).
    assert (Hrecord : record = job_completed).
    { apply records_of_In in Hin. rewrite Hevents in Hin.
      pose proof (bulk_outcome_records _ _ _ _ Houtcome) as [Hnone _].
      rewrite records_of_cons, records_of_app, Hnone in Hin.
      cbn in Hin. rewrite Nat.eqb_refl in Hin. destruct Hin as [Hin | []]. exact Hin. }
    subst record. inversion Houtcome as [items Hitems Hupdates Hjob | | |]; subst.
    exists items. split; [exact Hitems | exact Hevents].
Qed.

(** X11: when the body has no appointments or they are not a list (nor
    a string), the job is accepted all the same and makes no model call
    under any schedule; resumed once, it is over and has written
    {status: failed, error} with the message of the iteration error. *)
Theorem bulk_job_not_iterable (w : World) (req : Request)
    (appointments : option Json) (inputs : list Input) (e : JsError) :
  wf w ->
  get_prop "appointments" (body req) = inr appointments ->
  iterate "appointments" appointments = inl e ->
  let rid := next_request w in
  let jobId := timestamp_id (clock w) in
  let w' := run inputs (step (BulkRequest req) w) in
  model_updates rid (log w') = [] /\
  (1 <= resumes rid inputs ->
   events_of rid (log w') =
     [Responded rid (bulk_response jobId);
      CacheSet rid jobId (mkRecord failed None None None None None (Some (err_message e)))]).
Proof.
  intros Hwf Hbody Hiterate rid jobId w'.
  destruct (bulk_request_run w req appointments inputs Hwf Hbody) as [Hstate Hleft].
  fold rid jobId w' in Hstate, Hleft.
  unfold bulk_work in Hleft. rewrite Hiterate in Hleft.
  assert (Houtcome : forall updates record,
            BulkOutcome rid appointments updates record ->
            updates = [] /\ record = job_failed e).
  { intros updates record Houtcome.
    destruct Houtcome as [items Hit | pre post x id e' Hit _ | pre post x e' Hit _ | e' Hit];
      rewrite Hit in Hiterate; try discriminate.
    injection Hiterate as ->. done. }
  rewrite <- model_updates_events_of.
  destruct (tasks w' !! rid) as [t |].
  - destruct t; cbn [bulk_state bulk_left] in Hstate, Hleft; try contradiction.
    + destruct Hstate as (_ & _ & pre & Hitems & _). rewrite Hitems in Hiterate.
      discriminate Hiterate.
    + destruct Hstate as (_ & updates & Hout & ->).
      apply Houtcome in Hout as [-> ->]. split; [reflexivity | lia].
  - destruct Hstate as (updates & record & Hout & ->).
    apply Houtcome in Hout as [-> ->]. split; reflexivity.
Qed.

Lemma step_clock (i : Input) (w : World) :
  clock (step i w) = (clock w + ticks [i])%N.
Proof.
  destruct i as [ms | req | req | rid entropy]; cbn [step ticks fold_right];
    rewrite ?N.add_0_r.
  - reflexivity.
  - unfold bulkUpdateAppointments. destruct (get_prop "appointments" (body req)); reflexivity.
  - reflexivity.
  - unfold resume. destruct (tasks w !! rid) as [t |]; [| reflexivity].
    destruct t; try reflexivity.
    + destruct (update appt id (db w)) as [db' raised]. reflexivity.
    + destruct (findByPk (param_id req) (db w)) as [err | [appointment |]]; reflexivity.
    + destruct (due <=? clock w)%N; reflexivity.
    + destruct (instance_update appointment updateData (db w)) as [[db' a'] raised].
      reflexivity.
Qed.

Lemma run_clock (inputs : list Input) (w : World) :
  clock (run inputs w) = (clock w + ticks inputs)%N.
Proof.
  revert w. induction inputs as [| i inputs IH]; intros w.
  - cbn. lia.
  - rewrite run_cons, IH, step_clock.
    assert (Hcons : ticks (i :: inputs) = (ticks [i] + ticks inputs)%N)
      by (unfold ticks; cbn [fold_right]; destruct i; lia).
    lia.
Qed.

(** X12: a bulk request that arrives after the clock has moved on is
    given another jobId than the earlier one: job ids are shared within
    one millisecond only. *)
Theorem later_job_other_id (w : World) (req1 req2 : Request) (a1 a2 : option Json)
    (inputs : list Input) :
  get_prop "appointments" (body req1) = inr a1 ->
  get_prop "appointments" (body req2) = inr a2 ->
  (0 < ticks inputs)%N ->
  let w1 := run inputs (step (BulkRequest req1) w) in
  exists jobId,
    jobId <> timestamp_id (clock w) /\
    In (Responded (next_request w) (bulk_response (timestamp_id (clock w)))) (log w1) /\
    log (step (BulkRequest req2) w1) =
      log w1 ++ [Responded (next_request w1) (bulk_response jobId)].
Proof.
  intros Hbody1 Hbody2 Hticks w1.
  exists (timestamp_id (clock w1)). split; [| split].
  - intros Heq. apply timestamp_id_inj in Heq.
    unfold w1 in Heq. rewrite run_clock, step_clock in Heq. cbn in Heq. lia.
  - destruct (run_log inputs (step (BulkRequest req1) w)) as (evs & Hlog & _).
    fold w1 in Hlog. rewrite Hlog. apply in_or_app. left.
    cbn [step]. unfold bulkUpdateAppointments. rewrite Hbody1.
    cbn [log emit suspend accept]. apply in_or_app. right. left. reflexivity.
  - cbn [step]. unfold bulkUpdateAppointments. rewrite Hbody2. reflexivity.
Qed.

(** ** Further properties of the single-resource operation *)

(** X13: when [findByPk] raises, the asynchronous update is answered
    400 with the message of the error, and whatever the server does
    afterwards that response stays the only event of the request: no
    record is written and no update is made for it. *)
Theorem async_update_find_raises (w : World) (req : Request)
    (inputs1 inputs2 : list Input) (entropy : N) (err : JsError) :
  wf w ->
  let rid := next_request w in
  Forall (other rid) inputs1 ->
  let w1 := run inputs1 (step (AsyncRequest req) w) in
  findByPk (param_id req) (db w1) = inl err ->
  let w2 := run inputs2 (step (Resume rid entropy) w1) in
  events_of rid (log w2) =
    [Responded rid (mkRes 400 [] (Some (ErrorBody (err_message err))))] /\
  tasks w2 !! rid = None.
Proof.
  intros Hwf rid Hother w1 Hfind w2.
  destruct (async_request_find w req inputs1 Hwf Hother) as (Htask1 & Hevents1 & Hold1).
  fold rid w1 in Htask1, Hevents1, Hold1.
  assert (Hstep : step (Resume rid entropy) w1
                  = emit [Responded rid (bad_request_response err)] (finish rid w1)).
  { cbn [step]. unfold resume. rewrite Htask1, Hfind. reflexivity. }
  destruct (run_finished rid inputs2 (step (Resume rid entropy) w1)) as [Htask2 Hevents2].
  { rewrite Hstep. cbn [tasks emit finish]. apply lookup_delete_eq. }
  { rewrite Hstep. exact Hold1. }
  fold w2 in Htask2, Hevents2. split; [| exact Htask2].
  rewrite Hevents2, Hstep. cbn [log emit finish].
  rewrite events_of_app, Hevents1. cbn. rewrite Nat.eqb_refl. reflexivity.
Qed.

(** X14: an asynchronous update request that is over has ended in one
    of three ways, whatever the schedule: answered 400 with an error
    message and nothing else; answered 404 and nothing else; or accepted,
    with the processing record written and 202 answered, then one update
    of the appointment with the request payload, then one write of the
    completed or the failed record under the same operationId. *)
Theorem async_update_outcomes (w : World) (req : Request) (inputs : list Input) :
  wf w ->
  let rid := next_request w in
  let w' := run inputs (step (AsyncRequest req) w) in
  tasks w' !! rid = None ->
  (exists err,
     events_of rid (log w') =
       [Responded rid (mkRes 400 [] (Some (ErrorBody (err_message err))))]) \/
  events_of rid (log w') =
    [Responded rid (mkRes 404 [] (Some (MessageBody "Appointment not found")))] \/
  (exists operationId appointment appointment' raised,
     events_of rid (log w') =
       [CacheSet rid operationId (op_processing (param_id req) (body req));
        Responded rid (async_response (status_url req operationId) operationId);
        InstanceUpdated rid appointment (body req) raised;
        CacheSet rid operationId (op_outcome appointment' raised)]).
Proof.
  intros Hwf rid w' Hdone.
  pose proof (async_request_run w req inputs Hwf) as Hstate.
  cbn zeta in Hstate. fold rid w' in Hstate. rewrite Hdone in Hstate.
  exact Hstate.
Qed.

Lemma updates_of_app (l1 l2 : list Event) :
  List.filter is_update (l1 ++ l2) = List.filter is_update l1 ++ List.filter is_update l2.
Proof. apply List.filter_app. Qed.

Lemma delayed_later (arrival : N) (rid : nat) (w w' : World) :
  (arrival + 5000 <= clock w)%N -> (clock w <= clock w')%N -> delayed arrival rid w'.
Proof. intros Hdue Hlater. split; [lia | right; lia]. Qed.

Lemma delayed_resume (arrival : N) (rid : nat) (entropy : N) (w : World) :
  delayed arrival rid w -> delayed arrival rid (resume rid entropy w).
Proof.
  intros [Harrived Hdelayed].
  assert (Hclock : clock (resume rid entropy w) = clock w).
  { pose proof (step_clock (Resume rid entropy) w) as Hstep. cbn in Hstep. lia. }
  destruct Hdelayed as [[Hbefore Hnone] | Hdue];
    [| apply (delayed_later arrival rid w); lia].
  split; [lia |]. unfold resume in *.
  destruct (tasks w !! rid) as [t |] eqn:Htask; [| left; rewrite Htask; done].
  destruct t; cbn [before_update] in Hbefore; try contradiction.
  - left. destruct (findByPk (param_id req) (db w)) as [err | [appointment |]];
      cbn [tasks log emit suspend finish];
      rewrite ?lookup_insert_eq, ?lookup_delete_eq, ?events_of_app, ?updates_of_app, ?Hnone;
      rewrite ?(events_of_own rid) by reflexivity; done.
  - left. cbn [tasks log emit suspend stored].
    rewrite lookup_insert_eq, events_of_app, updates_of_app, Hnone.
    cbn. rewrite Nat.eqb_refl. cbn. split; [lia | reflexivity].
  - destruct (N.leb_spec due (clock w)) as [Hfired | Hwait].
    + right. lia.
    + left. rewrite Htask. done.
Qed.

Lemma delayed_step (arrival : N) (rid : nat) (i : Input) (w : World) :
  rid < next_request w -> delayed arrival rid w -> delayed arrival rid (step i w).
Proof.
  intros Hold Hdelayed.
  assert (Hframe : other rid i -> delayed arrival rid (step i w)).
  { intros Hother. destruct (step_frame rid i w Hother ltac:(lia)) as [Htasks Hevents].
    pose proof (step_clock i w) as Hclock.
    destruct Hdelayed as [Harrived [[Hbefore Hnone] | Hdue]].
    - split; [lia |]. left. rewrite Htasks, Hevents. done.
    - apply (delayed_later arrival rid w); lia. }
  destruct i as [ms | req | req | rid' entropy]; try (apply Hframe; exact I).
  destruct (decide (rid' = rid)) as [-> | Hne]; [| apply Hframe; exact Hne].
  apply delayed_resume, Hdelayed.
Qed.

Lemma delayed_run (arrival : N) (rid : nat) (inputs : list Input) (w : World) :
  rid < next_request w -> delayed arrival rid w -> delayed arrival rid (run inputs w).
Proof.
  revert w. induction inputs as [| i inputs IH]; intros w Hold Hdelayed; [exact Hdelayed |].
  rewrite run_cons. apply IH; [pose proof (step_next i w); lia |].
  apply delayed_step; assumption.
Qed.

(** X15: the update of an asynchronous update request is never made
    before its delay has passed: whatever the schedule, when the log
    holds the update of the appointment for the request, the clock is at
    least 5000 ms past the arrival of the request. *)
Theorem update_waits_for_timer (w : World) (req : Request) (inputs : list Input)
    (appointment : Instance) (values : Json) (raised : option JsError) :
  wf w ->
  let rid := next_request w in
  let w' := run inputs (step (AsyncRequest req) w) in
  In (InstanceUpdated rid appointment values raised) (log w') ->
  (clock w + 5000 <= clock w')%N.
Proof.
  intros [Hfresh _] rid w' Hin.
  destruct (Hfresh rid ltac:(lia)) as [_ Hnone].
  assert (Hdelayed : delayed (clock w) rid w').
  { apply delayed_run; [cbn; lia |]. split; [cbn; lia |]. left.
    cbn [step tasks log updateAppointmentAsync suspend accept].
    rewrite lookup_insert_eq. fold rid. rewrite Hnone. done. }
  destruct Hdelayed as [_ [[_ Hquiet] | Hdue]]; [| exact Hdue].
  apply (In_events_of rid) in Hin; [| reflexivity].
  assert (Hupdate : In (InstanceUpdated rid appointment values raised)
                       (List.filter is_update (events_of rid (log w'))))
    by (apply filter_In; split; [exact Hin | reflexivity]).
  rewrite Hquiet in Hupdate. destruct Hupdate.
Qed.

(** ** Further invariants of the server *)

(** X19: from the start of the server on, the tracker holds under
    every key the record that was written there last, and none where
    nothing was written: records are only ever set or overwritten, the
    last writer wins. *)
Theorem tracker_mirrors_log (db0 : DB) (now : N) (inputs : list Input) (key : string) :
  let w := run inputs (initial db0 now) in
  cache w !! key = last_write key (log w).
Proof. intros w. apply (run_wf inputs (initial db0 now) (initial_wf db0 now)). Qed.

Lemma replay_no_update (evs : list Event) (d : DB) :
  List.filter is_update evs = [] -> replay evs d = d.
Proof.
  revert d. induction evs as [| ev evs IH]; intros d Hnone; [reflexivity |].
  cbn [replay fold_left]. destruct ev; cbn in Hnone; try discriminate; apply IH, Hnone.
Qed.

(** X20: the store changes with model updates only: a schedule that
    adds no [Appointment.update] and no [appointment.update] to the log,
    whatever it does besides (requests arriving and answered, lookups,
    tracker writes, timers), leaves the store as it was. *)
Theorem store_changes_with_updates_only (w : World) (inputs : list Input) (evs : list Event) :
  log (run inputs w) = log w ++ evs ->
  List.filter is_update evs = [] ->
  db (run inputs w) = db w.
Proof.
  intros Hlog Hnone.
  destruct (run_log inputs w) as (evs' & Hlog' & Hdb).
  rewrite Hlog' in Hlog. apply app_inv_head in Hlog. subst evs'.
  rewrite Hdb. apply replay_no_update, Hnone.
Qed.

End LoopProperties.

(** * The properties at work on the example store *)

Section Examples.
#[local] Existing Instance Toy.orm.
Import Loop.

Example randomUUID_zero : randomUUID 0 = "00000000-0000-4000-8000-000000000000".
Proof. reflexivity. Qed.

Example timestamp_id_ex : timestamp_id 1700000000000%N = "1700000000000".
Proof. reflexivity. Qed.

Example ceil_div_ex : ceil_div 25%N (PStr (D1 (D0 Nil))) = Int 3.
Proof. reflexivity. Qed.

Example plus_one_ex : plus_one (PStr (D2 Nil)) = "21" /\ minus_one (PStr (D2 Nil)) = "1".
Proof. split; reflexivity. Qed.

(** A bulk job whose updates all go through ends completed, and the
    store has the new title. *)
Example bulk_fine_completes :
  let w' := run [BulkRequest Toy.bulk_fine; Resume 0 0; Resume 0 0] Toy.server in
  cache w' !! "1700000000000" = Some job_completed /\
  db w' = [Toy.row 1 "slot"; Toy.item 2 (JStr "kept"); Toy.row 3 "slot"] /\
  tasks w' !! 0 = None.
Proof. vm_compute. done. Qed.

(** An accepted operation settles after the delay. *)
Example move_settles :
  let w' := run [AsyncRequest Toy.move; Resume 0 7; Resume 0 0; Resume 0 0;
                 Tick 5000; Resume 0 0; Resume 0 0; Resume 0 0]
                (initial (Toy.rows 2) 1000%N) in
  status <$> cache w' !! "07000000-0000-4000-8000-000000000000" = Some completed /\
  List.map status (records_of 0 (log w')) = [processing; completed].
Proof. vm_compute. done. Qed.

Lemma async_update_accepted_witness :
  events_of 0 (log (run [AsyncRequest Toy.move; Resume 0 7; Tick 10; Resume 0 0]
                        (initial (Toy.rows 2) 1000%N))) =
    [CacheSet 0 "07000000-0000-4000-8000-000000000000"
       (op_processing "1" (JObj [("title", JStr "moved")]));
     Responded 0
       (async_response "http://localhost:3000/operations/07000000-0000-4000-8000-000000000000"
                       "07000000-0000-4000-8000-000000000000")].
Proof.
  refine (proj1 (async_update_accepted (initial (Toy.rows 2) 1000%N) Toy.move
                   (Toy.row 1 "slot") [] [Tick 10] 7 0 (initial_wf _ _) _ _ _)).
  - constructor.
  - repeat constructor.
  - reflexivity.
Defined.

Lemma async_update_missing_witness :
  events_of 0 (log (run [AsyncRequest Toy.missing; Resume 0 7; Tick 6000; Resume 0 0]
                        (initial (Toy.rows 2) 1000%N))) =
    [Responded 0 (mkRes 404 [] (Some (MessageBody "Appointment not found")))].
Proof.
  refine (proj1 (async_update_missing (initial (Toy.rows 2) 1000%N) Toy.missing
                   [] [Tick 6000; Resume 0 0] 7 (initial_wf _ _) _ _)).
  - constructor.
  - reflexivity.
Defined.


Lemma bulk_job_stops_at_first_error_witness :
  let w' := run [Resume 0 0; Resume 0 0; Resume 0 0]
                (step (BulkRequest Toy.bulk_failing) Toy.server) in
  exists pre post,
    [Toy.item 1 (JStr "moved"); Toy.item 2 JNull; Toy.item 3 (JStr "late")]
      = pre ++ Toy.item 2 JNull :: post /\
    events_of 0 (log w') =
      Responded 0 (bulk_response "1700000000000") :: List.map (updated 0) pre ++
      [ModelUpdated 0 (Toy.item 2 JNull) (Some (JNum 2)) (Some Toy.validation_error);
       CacheSet 0 "1700000000000" (job_failed Toy.validation_error)].
Proof.
  intros w'.
  destruct (bulk_job_stops_at_first_error Toy.server Toy.bulk_failing
              (Some (JArr [Toy.item 1 (JStr "moved"); Toy.item 2 JNull; Toy.item 3 (JStr "late")]))
              [Resume 0 0; Resume 0 0; Resume 0 0]
              (Toy.item 2 JNull) (Some (JNum 2)) Toy.validation_error
              (initial_wf _ _) eq_refl)
    as (pre & post & evs & Hitems & Hevents & _).
  - vm_compute. reflexivity.
  - vm_compute. right. right. left. reflexivity.
  - exists pre, post. split; [| exact Hevents].
    cbn in Hitems. congruence.
Defined.

(** C4: two bulk requests of the same millisecond share their jobId;
    the first fails, the second completes, and the record under that
    one id is written twice, the second time after a terminal state:
    failed, then completed. *)
Theorem same_tick_jobs_overwrite :
  writes "1700000000000" (log Toy.two_jobs) = [job_failed Toy.validation_error; job_completed] /\
  cache Toy.two_jobs !! "1700000000000" = Some job_completed /\
  last (events_of 0 (log Toy.two_jobs))
    = Some (CacheSet 0 "1700000000000" (job_failed Toy.validation_error)) /\
  last (events_of 1 (log Toy.two_jobs)) = Some (CacheSet 1 "1700000000000" job_completed).
Proof. vm_compute. done. Qed.

Lemma same_tick_same_job_id_witness :
  log (step (BulkRequest Toy.bulk_fine) (step (BulkRequest Toy.bulk_failing) Toy.server)) =
    [Responded 0 (bulk_response "1700000000000"); Responded 1 (bulk_response "1700000000000")].
Proof.
  exact (same_tick_same_job_id Toy.server Toy.bulk_failing Toy.bulk_fine _ _ eq_refl eq_refl).
Defined.

Lemma getAppointmentById_missing_witness :
  Crud.run (Crud.getAppointmentById Toy.missing) (Toy.rows 2) =
    (Toy.rows 2, mkRes 500 [] (Some (ErrorBody "baseUrl is not defined"))).
Proof. apply (getAppointmentById_missing Toy.missing (Toy.rows 2)). reflexivity. Defined.

(** Creating an appointment under a key that is taken raises a
    unique-constraint error, which the mapping by kind sends to 409;
    createAppointment answers 400. *)
Lemma createAppointment_conflict_is_400 :
  let req := Toy.request EmptyString (Toy.row 1 "again") in
  Crud.raised Crud.CreateAppointment req (Toy.rows 2) Toy.unique_error /\
  statusCode (snd (Crud.run (Crud.createAppointment req) (Toy.rows 2))) = 400%Z /\
  Crud.kind_status Toy.unique_error = 409%Z /\
  ~ Crud.maps_by_kind Crud.CreateAppointment.
Proof.
  intros req. split; [reflexivity |]. split; [reflexivity |]. split; [reflexivity |].
  intros Hmaps. specialize (Hmaps req (Toy.rows 2) Toy.unique_error eq_refl).
  vm_compute in Hmaps. discriminate Hmaps.
Qed.

Lemma handler_catch_status_witness :
  Crud.run (Crud.createAppointment (Toy.request EmptyString (Toy.row 1 "again"))) (Toy.rows 2)
    = (Toy.rows 2, mkRes 400 [] (Some (ErrorBody "Validation error"))) /\
  Crud.kind_status Toy.unique_error = 409%Z.
Proof.
  destruct (handler_catch_status Crud.CreateAppointment
              (Toy.request EmptyString (Toy.row 1 "again")) (Toy.rows 2)
              Toy.unique_error eq_refl) as [[d' Hrun] Hkind].
  split; [| reflexivity].
  cbn [Crud.handle Crud.catch_status] in Hrun.
  assert (Hstore : d' = Toy.rows 2)
    by (apply (f_equal fst) in Hrun; vm_compute in Hrun; symmetry; exact Hrun).
  rewrite Hstore in Hrun. exact Hrun.
Defined.



Lemma getAppointments_next_concatenates_witness :
  let r := snd (Crud.run (Crud.getAppointments (Toy.listing (D2 Nil) (D1 (D0 Nil))))
                         (Toy.rows 25)) in
  Crud.link "prev" (Crud.links_of r) = Some "http://localhost:3000/appointments?page=1&limit=10" /\
  Crud.link "next" (Crud.links_of r) = Some "http://localhost:3000/appointments?page=21&limit=10" /\
  "21" <> "3".
Proof.
  refine (getAppointments_next_concatenates (Toy.listing (D2 Nil) (D1 (D0 Nil))) (Toy.rows 25)
            25 (firstn 10 (skipn 10 (Toy.rows 25))) (D2 Nil) eq_refl eq_refl _ _ _ _ _).
  - vm_compute. reflexivity.
  - vm_compute. reflexivity.
  - vm_compute. reflexivity.
  - vm_compute. reflexivity.
  - vm_compute. reflexivity.
Defined.

(** ** The further properties on the example store *)

Lemma update_delete_missing_witness :
  Crud.run (Crud.updateAppointment Toy.missing) (Toy.rows 2)
    = (Toy.rows 2, mkRes 404 [] (Some (MessageBody "Appointment not found"))) /\
  Crud.run (Crud.deleteAppointment Toy.missing) (Toy.rows 2)
    = (Toy.rows 2, mkRes 404 [] (Some (MessageBody "Appointment not found"))).
Proof. apply (update_delete_missing Toy.missing (Toy.rows 2)). reflexivity. Defined.


Lemma found_appointment_written_once_witness :
  Crud.run (Crud.updateAppointment Toy.move) (Toy.rows 2) =
    ([JObj [("title", JStr "moved"); ("id", JNum 1)]; Toy.row 2 "slot"],
     mkRes 200 [] (Some (InstanceBody (JObj [("title", JStr "moved"); ("id", JNum 1)]) None))) /\
  Crud.run (Crud.deleteAppointment Toy.move) (Toy.rows 2) =
    ([Toy.row 2 "slot"], mkRes 200 [] (Some (MessageBody "Appointment deleted"))).
Proof.
  exact (found_appointment_written_once Toy.move (Toy.rows 2) (Toy.row 1 "slot") eq_refl).
Defined.

Lemma by_owner_handlers_answer_200_witness :
  Crud.run (Crud.getAppointmentsByUserId Toy.move) (Toy.rows 2)
    = (Toy.rows 2, mkRes 200 [] (Some (InstancesBody []))) /\
  Crud.run (Crud.getAppointmentsByScheduleId Toy.move) (Toy.rows 2)
    = (Toy.rows 2, mkRes 200 [] (Some (InstancesBody []))) /\
  Crud.run (Crud.deleteAppointmentsByUserId Toy.move) (Toy.rows 2) =
    (Toy.rows 2,
     mkRes 200 [] (Some (MessageBody "0 appointments made by student 7 canceled."))).
Proof.
  exact (by_owner_handlers_answer_200 Toy.move (Toy.rows 2) (Toy.rows 2) [] [] 0
           eq_refl eq_refl eq_refl).
Defined.


Lemma getAppointments_defaults_witness :
  let r := snd (Crud.run (Crud.getAppointments Toy.move) (Toy.rows 25)) in
  Crud.link "prev" (Crud.links_of r) = None /\
  Crud.link "next" (Crud.links_of r) = Some "http://localhost:3000/appointments?page=2&limit=10".
Proof.
  intros r.
  destruct (getAppointments_defaults Toy.move (Toy.rows 25) 25 (firstn 10 (Toy.rows 25))
              eq_refl eq_refl eq_refl) as (_ & _ & _ & Hprev & Hnext).
  - vm_compute. reflexivity.
  - split; [exact Hprev | exact Hnext].
Defined.

Lemma getAppointments_limit_zero_witness :
  let r := snd (Crud.run (Crud.getAppointments (Toy.listing (D2 Nil) (D0 Nil))) (Toy.rows 25)) in
  Crud.link "last" (Crud.links_of r)
    = Some "http://localhost:3000/appointments?page=Infinity&limit=0" /\
  Crud.link "next" (Crud.links_of r) = Some "http://localhost:3000/appointments?page=21&limit=0".
Proof.
  intros r.
  destruct (getAppointments_limit_zero (Toy.listing (D2 Nil) (D0 Nil)) (Toy.rows 25) 25 []
              eq_refl eq_refl) as (_ & Hlast & Hnext).
  - vm_compute. reflexivity.
  - vm_compute. reflexivity.
  - split; [exact Hlast | exact Hnext].
Defined.

Lemma bulk_answered_first_and_once_witness :
  let w' := run [Resume 0 0; Resume 0 0; Resume 0 0]
                (step (BulkRequest Toy.bulk_failing) Toy.server) in
  exists rest,
    events_of 0 (log w') = Responded 0 (bulk_response "1700000000000") :: rest /\
    List.filter is_response rest = [].
Proof.
  intros w'.
  exact (bulk_answered_first_and_once Toy.server Toy.bulk_failing
           (Some (JArr [Toy.item 1 (JStr "moved"); Toy.item 2 JNull; Toy.item 3 (JStr "late")]))
           [Resume 0 0; Resume 0 0; Resume 0 0]
           (initial_wf _ _) eq_refl).
Defined.

Lemma bulk_completed_means_all_updated_witness :
  let w' := run [BulkRequest Toy.bulk_fine; Resume 0 0; Resume 0 0] Toy.server in
  exists items,
    iterate "appointments" (Some (JArr [Toy.item 2 (JStr "kept")])) = inr items /\
    events_of 0 (log w') =
      Responded 0 (bulk_response "1700000000000") :: List.map (updated 0) items ++
      [CacheSet 0 "1700000000000" job_completed].
Proof.
  intros w'.
  apply (bulk_completed_means_all_updated Toy.server Toy.bulk_fine
           (Some (JArr [Toy.item 2 (JStr "kept")])) [Resume 0 0; Resume 0 0]
           (initial_wf _ _) eq_refl).
  vm_compute. right. right. left. reflexivity.
Defined.

Lemma bulk_job_not_iterable_witness :
  events_of 0 (log (run [BulkRequest (Toy.request EmptyString (JObj [])); Resume 0 0]
                        Toy.server)) =
    [Responded 0 (bulk_response "1700000000000");
     CacheSet 0 "1700000000000" (job_failed (TypeError "appointments is not iterable"))].
Proof.
  refine (proj2 (bulk_job_not_iterable Toy.server (Toy.request EmptyString (JObj [])) None
                   [Resume 0 0] (TypeError "appointments is not iterable")
                   (initial_wf _ _) eq_refl eq_refl) _).
  vm_compute. lia.
Defined.

Lemma later_job_other_id_witness :
  exists jobId,
    jobId <> "1700000000000" /\
    log (run [BulkRequest Toy.bulk_failing; Tick 1; BulkRequest Toy.bulk_fine] Toy.server) =
      [Responded 0 (bulk_response "1700000000000"); Responded 1 (bulk_response jobId)].
Proof.
  destruct (later_job_other_id Toy.server Toy.bulk_failing Toy.bulk_fine _ _ [Tick 1]
              eq_refl eq_refl) as (jobId & Hother & _ & Hlog).
  - vm_compute. reflexivity.
  - exists jobId. split; [exact Hother | exact Hlog].
Defined.

Lemma async_update_find_raises_witness :
  @events_of Toy.refused 0
    (log (run [AsyncRequest Toy.move; Resume 0 7; Tick 6000; Resume 0 0]
              (@initial Toy.refused tt 1000%N))) =
    [@Responded Toy.refused 0
       (mkRes 400 [] (Some (ErrorBody "connect ECONNREFUSED 127.0.0.1:3306")))].
Proof.
  refine (proj1 (@async_update_find_raises Toy.refused (@initial Toy.refused tt 1000%N)
                   Toy.move [] [Tick 6000; Resume 0 0] 7 Toy.refused_error
                   (@initial_wf Toy.refused _ _) _ _)).
  - constructor.
  - reflexivity.
Defined.

Lemma async_update_outcomes_witness :
  let w' := run [Resume 0 7; Resume 0 0; Tick 5000; Resume 0 0; Resume 0 0; Resume 0 0]
                (step (AsyncRequest Toy.move) (initial (Toy.rows 2) 1000%N)) in
  (exists err,
     events_of 0 (log w') =
       [Responded 0 (mkRes 400 [] (Some (ErrorBody (err_message err))))]) \/
  events_of 0 (log w') =
    [Responded 0 (mkRes 404 [] (Some (MessageBody "Appointment not found")))] \/
  (exists operationId appointment appointment' raised,
     events_of 0 (log w') =
       [CacheSet 0 operationId (op_processing "1" (JObj [("title", JStr "moved")]));
        Responded 0 (async_response (status_url Toy.move operationId) operationId);
        InstanceUpdated 0 appointment (JObj [("title", JStr "moved")]) raised;
        CacheSet 0 operationId (op_outcome appointment' raised)]).
Proof.
  intros w'.
  apply (async_update_outcomes (initial (Toy.rows 2) 1000%N) Toy.move
           [Resume 0 7; Resume 0 0; Tick 5000; Resume 0 0; Resume 0 0; Resume 0 0]
           (initial_wf _ _)).
  vm_compute. reflexivity.
Defined.

Lemma update_waits_for_timer_witness :
  let w' := run [Resume 0 7; Resume 0 0; Tick 5000; Resume 0 0; Resume 0 0; Resume 0 0]
                (step (AsyncRequest Toy.move) (initial (Toy.rows 2) 1000%N)) in
  (1000 + 5000 <= clock w')%N.
Proof.
  intros w'.
  apply (update_waits_for_timer (initial (Toy.rows 2) 1000%N) Toy.move
           [Resume 0 7; Resume 0 0; Tick 5000; Resume 0 0; Resume 0 0; Resume 0 0]
           (Toy.row 1 "slot") (JObj [("title", JStr "moved")]) None (initial_wf _ _)).
  vm_compute. right. right. left. reflexivity.
Defined.


Lemma bulk_request_writes_once_witness :
  let w' := run [Resume 0 0; Resume 0 0; Resume 0 0]
                (step (BulkRequest Toy.bulk_failing) Toy.server) in
  sets_of 0 (log w')
    = [CacheSet 0 "1700000000000" (mkRecord failed None None None None None
                                            (Some "notNull Violation: title cannot be null"))].
Proof.
  intros w'.
  assert (Htask : tasks (run [Resume 0 0; Resume 0 0; Resume 0 0]
                             (step (BulkRequest Toy.bulk_failing) Toy.server))
                    !! next_request Toy.server = None)
    by (vm_compute; reflexivity).
  pose proof (bulk_request_writes_once Toy.server Toy.bulk_failing
                [Resume 0 0; Resume 0 0; Resume 0 0] (initial_wf _ _)) as Hwrites.
  cbv zeta in Hwrites. rewrite Htask in Hwrites.
  destruct Hwrites as [Hcompleted | [message Hfailed]]; vm_compute; reflexivity.
Defined.

Lemma async_request_writes_once_witness :
  let w' := run [Resume 0 7; Resume 0 0; Tick 5000; Resume 0 0; Resume 0 0; Resume 0 0]
                (step (AsyncRequest Toy.move) (initial (Toy.rows 2) 1000%N)) in
  sets_of 0 (log w')
    = [CacheSet 0 "07000000-0000-4000-8000-000000000000"
         (mkRecord processing (Some "appointment") (Some (JStr "1")) (Some "update")
                   (Some (JObj [("title", JStr "moved")])) None None);
       CacheSet 0 "07000000-0000-4000-8000-000000000000"
         (mkRecord completed (Some "appointment") (Some (JNum 1)) (Some "update") None
                   (Some (JObj [("title", JStr "moved"); ("id", JNum 1)])) None)].
Proof.
  intros w'.
  assert (Htask : tasks (run [Resume 0 7; Resume 0 0; Tick 5000; Resume 0 0; Resume 0 0;
                              Resume 0 0]
                             (step (AsyncRequest Toy.move) (initial (Toy.rows 2) 1000%N)))
                    !! next_request (initial (Toy.rows 2) 1000%N) = None)
    by (vm_compute; reflexivity).
  pose proof (async_request_writes_once (initial (Toy.rows 2) 1000%N) Toy.move
                [Resume 0 7; Resume 0 0; Tick 5000; Resume 0 0; Resume 0 0; Resume 0 0]
                (initial_wf _ _)) as Hwrites.
  cbv zeta in Hwrites. rewrite Htask in Hwrites.
  destruct Hwrites as [[Hnone _] | (operationId & appointment & [Hsets | [message Hsets]])];
    vm_compute; reflexivity.
Defined.

Lemma store_changes_with_updates_only_witness :
  db (run [AsyncRequest Toy.move; Resume 0 7; Resume 0 0; Tick 5000]
          (initial (Toy.rows 2) 1000%N)) = Toy.rows 2.
Proof.
  apply (store_changes_with_updates_only (initial (Toy.rows 2) 1000%N)
           [AsyncRequest Toy.move; Resume 0 7; Resume 0 0; Tick 5000]
           (accepted 0 Toy.move "07000000-0000-4000-8000-000000000000")).
  - reflexivity.
  - reflexivity.
Defined.

End Examples.
